(** * Siamese MNIST verification notebook: data pipeline, loss and training loop

  A shallow embedding of [minst_verification.ipynb]:
  - [organize_by_label]        (the label index),
  - [create_pairs]             (the pair sampler, over an explicit random
                                source),
  - [ContrastiveMNISTDataset]  (the paired dataset view),
  - [SiameseNetwork], [ContrastiveLoss] (the model wrapper and the objective),
  - the epoch loop with checkpointing and early stopping.

  Python integers are [Z] (labels) or [nat] (indices produced by [range]);
  a [dict] is an association list in insertion order, which is the order
  [list(label_dict.keys())] exposes; exceptions are the [Raise] results of
  an error monad; floating-point tensors are idealised as real numbers. *)

From Stdlib Require Import List ZArith Arith Lia Bool Permutation.
From Stdlib Require Import Reals Lra.
Import ListNotations.

Set Implicit Arguments.

(** ** Python exceptions and results *)

Inductive exn : Type :=
| IndexError
| ValueError
| KeyError
| RuntimeError.

Inductive result (A : Type) : Type :=
| Ok (a : A)
| Raise (e : exn).

Arguments Ok {A} a.
Arguments Raise {A} e.

(** ** The dictionary built by [organize_by_label] *)

Module Dict.

(** [label_dict]: label -> list of indices, keys in insertion order. *)
Definition t : Type := list (Z * list nat).

Definition keys (d : t) : list Z := map fst d.

(** [d[k]] *)
Fixpoint get (d : t) (k : Z) : option (list nat) :=
  match d with
  | [] => None
  | (k', v) :: rest => if Z.eqb k k' then Some v else get rest k
  end.

(** [k in d] *)
Definition contains (d : t) (k : Z) : bool :=
  match get d k with
  | Some _ => true
  | None => false
  end.

(** [d[k] = v]: overwrite in place, or add the key at the end. *)
Fixpoint set (d : t) (k : Z) (v : list nat) : t :=
  match d with
  | [] => [(k, v)]
  | (k', v') :: rest =>
      if Z.eqb k k' then (k', v) :: rest else (k', v') :: set rest k v
  end.

(** [d[k].append(x)]; [KeyError] when the key is missing. *)
Definition append (d : t) (k : Z) (x : nat) : result t :=
  match get d k with
  | Some v => Ok (set d k (v ++ [x]))
  | None => Raise KeyError
  end.

(** The bucket of [k], empty when [k] is no key. *)
Definition bucket (d : t) (k : Z) : list nat :=
  match get d k with
  | Some v => v
  | None => []
  end.

End Dict.

(** ** organize_by_label *)

Section LabelIndex.

(** The images of the base dataset are opaque. *)
Variable image : Type.

(** A base dataset: [len(dataset)] and [dataset[idx] -> (image, label)]. *)
Definition dataset : Type := list (image * Z).

Definition getitem (ds : dataset) (idx : nat) : result (image * Z) :=
  match nth_error ds idx with
  | Some s => Ok s
  | None => Raise IndexError
  end.

Definition label_at (ds : dataset) (idx : nat) : option Z :=
  option_map snd (nth_error ds idx).

(** Whether the sample at [idx] carries label [k]. *)
Definition has_label (ds : dataset) (k : Z) (idx : nat) : bool :=
  match label_at ds idx with
  | Some l => Z.eqb l k
  | None => false
  end.

(** The body of the loop of [organize_by_label]. *)
Definition organize_step (ds : dataset) (label_dict : Dict.t) (idx : nat)
  : result Dict.t :=
  match getitem ds idx with
  | Raise e => Raise e
  | Ok (_, label) =>
      let label_dict :=
        if negb (Dict.contains label_dict label)
        then Dict.set label_dict label []
        else label_dict in
      Dict.append label_dict label idx
  end.

Fixpoint organize_loop (ds : dataset) (idxs : list nat) (label_dict : Dict.t)
  : result Dict.t :=
  match idxs with
  | [] => Ok label_dict
  | idx :: rest =>
      match organize_step ds label_dict idx with
      | Ok label_dict' => organize_loop ds rest label_dict'
      | Raise e => Raise e
      end
  end.

Definition organize_by_label (ds : dataset) : result Dict.t :=
  organize_loop ds (seq 0 (length ds)) [].

End LabelIndex.

(** ** The random source

    [random.choice] and [random.sample] draw from Python's generator.  The
    generator is an explicit stream of naturals: every outcome the library
    can produce is the outcome of the model on some stream, so a statement
    for every stream is a statement for every run. *)

Definition rng : Type := nat -> nat.

Definition Rand (A : Type) : Type := rng -> result (A * rng).

Definition ret {A : Type} (a : A) : Rand A :=
  fun g => Ok (a, g).

Definition bind {A B : Type} (m : Rand A) (f : A -> Rand B) : Rand B :=
  fun g =>
    match m g with
    | Ok (a, g') => f a g'
    | Raise e => Raise e
    end.

Definition raise {A : Type} (e : exn) : Rand A :=
  fun _ => Raise e.

Declare Scope rand_scope.
Delimit Scope rand_scope with rand.
Notation "x <- c1 ;; c2" := (bind c1 (fun x => c2))
  (at level 61, c1 at next level, right associativity) : rand_scope.
Notation "' pat <- c1 ;; c2" :=
  (bind c1 (fun x => match x with pat => c2 end))
  (at level 61, pat pattern, c1 at next level, right associativity)
  : rand_scope.

(** One draw below [n] (for [0 < n]). *)
Definition randbelow (n : nat) : Rand nat :=
  fun g => Ok (g 0 mod n, fun k => g (S k)).

(** [random.choice(seq)]: [IndexError] on the empty sequence. *)
Definition random_choice {A : Type} (seq : list A) : Rand A :=
  (match seq with
   | [] => raise IndexError
   | _ :: _ =>
       i <- randbelow (length seq) ;;
       match nth_error seq i with
       | Some x => ret x
       | None => raise IndexError
       end
   end)%rand.

(** [random.sample(population, 2)]: the elements at two distinct positions,
    in either order; [ValueError] when the population has fewer than two. *)
Definition random_sample2 {A : Type} (population : list A) : Rand (A * A) :=
  (let n := length population in
   if n <? 2 then raise ValueError
   else
     i <- randbelow n ;;
     j <- randbelow (n - 1) ;;
     let j := if j <? i then j else S j in
     match nth_error population i, nth_error population j with
     | Some x, Some y => ret (x, y)
     | _, _ => raise IndexError
     end)%rand.

(** ** create_pairs *)

(** A pair record [(idx1, idx2, similarity)].  The indices are positions
    counted from 0, as the sampler takes them from [range(len(dataset))];
    Python's negative indices are left out. *)
Definition pair_record : Type := (nat * nat * Z)%type.

(** [label_dict[label]] inside the sampler. *)
Definition dict_getitem (label_dict : Dict.t) (label : Z) : Rand (list nat) :=
  match Dict.get label_dict label with
  | Some v => ret v
  | None => raise KeyError
  end.

(** The positive half of an iteration. *)
Definition positive_pair (label_dict : Dict.t) (labels : list Z)
  (pairs : list pair_record) : Rand (list pair_record) :=
  (label <- random_choice labels ;;
   bucket <- dict_getitem label_dict label ;;
   if 2 <=? length bucket then
     ' (idx1, idx2) <- random_sample2 bucket ;;
     ret (pairs ++ [(idx1, idx2, 0%Z)])
   else ret pairs)%rand.

(** The negative half of an iteration. *)
Definition negative_pair (label_dict : Dict.t) (labels : list Z)
  (pairs : list pair_record) : Rand (list pair_record) :=
  (' (label1, label2) <- random_sample2 labels ;;
   bucket1 <- dict_getitem label_dict label1 ;;
   idx1 <- random_choice bucket1 ;;
   bucket2 <- dict_getitem label_dict label2 ;;
   idx2 <- random_choice bucket2 ;;
   ret (pairs ++ [(idx1, idx2, 1%Z)]))%rand.

(** The body of the [for _ in range(num_pairs)] loop. *)
Definition iteration (label_dict : Dict.t) (labels : list Z)
  (pairs : list pair_record) : Rand (list pair_record) :=
  (pairs <- positive_pair label_dict labels pairs ;;
   negative_pair label_dict labels pairs)%rand.

Fixpoint create_pairs_loop (label_dict : Dict.t) (labels : list Z)
  (n : nat) (pairs : list pair_record) : Rand (list pair_record) :=
  match n with
  | O => ret pairs
  | S n' =>
      (pairs <- iteration label_dict labels pairs ;;
       create_pairs_loop label_dict labels n' pairs)%rand
  end.

(** [create_pairs(dataset, label_dict, num_pairs)]; the dataset argument is
    not used by the function. *)
Definition create_pairs {image : Type} (ds : dataset image)
  (label_dict : Dict.t) (num_pairs : nat) (g : rng)
  : result (list pair_record) :=
  let pairs := [] in
  let labels := Dict.keys label_dict in
  match create_pairs_loop label_dict labels num_pairs pairs g with
  | Ok (pairs, _) => Ok pairs
  | Raise e => Raise e
  end.

(** The label the positive half of an iteration draws from stream [g]. *)
Definition chosen_label (label_dict : Dict.t) (g : rng) : result Z :=
  match random_choice (Dict.keys label_dict) g with
  | Ok (label, _) => Ok label
  | Raise e => Raise e
  end.

(** ** ContrastiveMNISTDataset *)

(** [torch.tensor(label, dtype=torch.float32)]: the integer as a float.
    The value is exact for the integers up to [2^24] in absolute value,
    the marks 0 and 1 among them; a larger integer is rounded by the
    library, which is left out here. *)
Definition float32_of_label (label : Z) : R := IZR label.

Module ContrastiveMNISTDataset.

(** [__init__]: a reference to the base dataset and the pair records. *)
Record t (image : Type) : Type := {
  dataset : list (image * Z);
  pairs : list pair_record
}.

Arguments dataset {image} _.
Arguments pairs {image} _.

Definition __len__ {image : Type} (self : t image) : nat :=
  length (pairs self).

(** [__getitem__], for a position [idx] counted from 0. *)
Definition __getitem__ {image : Type} (self : t image) (idx : nat)
  : result ((image * image) * R) :=
  match nth_error (pairs self) idx with
  | None => Raise IndexError
  | Some (idx1, idx2, label) =>
      match getitem (dataset self) idx1 with
      | Raise e => Raise e
      | Ok (img1, _) =>
          match getitem (dataset self) idx2 with
          | Raise e => Raise e
          | Ok (img2, _) => Ok ((img1, img2), float32_of_label label)
          end
      end
  end.

End ContrastiveMNISTDataset.

(** ** SiameseNetwork *)

Module SiameseNetwork.

Section Layers.

(** Tensors and the two stacks of layers are the deep-learning library's:
    a stack of layers is applied as a function of its parameters. *)
Variable tensor : Type.
Variable backbone_params head_params : Type.
Variable apply_feature_extractor : backbone_params -> tensor -> tensor.
Variable apply_fc : head_params -> tensor -> tensor.
(** [x.view(x.size(0), -1)] *)
Variable view_flat : tensor -> tensor.

(** The module object: one parameter set, held by [self]. *)
Record t : Type := {
  feature_extractor : backbone_params;
  fc : head_params
}.

Definition forward_once (self : t) (x : tensor) : tensor :=
  let x := apply_feature_extractor (feature_extractor self) x in
  let x := view_flat x in
  let x := apply_fc (fc self) x in
  x.

Definition forward (self : t) (input1 input2 : tensor) : tensor * tensor :=
  let output1 := forward_once self input1 in
  let output2 := forward_once self input2 in
  (output1, output2).

End Layers.

End SiameseNetwork.

(** ** ContrastiveLoss *)

Module Tensor.

(** A one-dimensional tensor of reals. *)
Definition t : Type := list R.

Fixpoint zip_with {A B C : Type} (f : A -> B -> C) (a : list A) (b : list B)
  : list C :=
  match a, b with
  | x :: a', y :: b' => f x y :: zip_with f a' b'
  | _, _ => []
  end.

(** An elementwise binary operation along the first dimension: equal sizes
    pair up, a size of one is broadcast, anything else is a shape error. *)
Definition elementwise {A B C : Type} (f : A -> B -> C)
  (a : list A) (b : list B) : result (list C) :=
  if length a =? length b then Ok (zip_with f a b)
  else
    match a, b with
    | [x], _ => Ok (map (f x) b)
    | _, [y] => Ok (map (fun x => f x y) a)
    | _, _ => Raise RuntimeError
    end.

Definition sum (a : t) : R := fold_right Rplus 0%R a.

(** A scalar result: a real, or the NaN of a division of zero by zero. *)
Inductive scalar : Type :=
| Finite (r : R)
| NaN.

(** [torch.mean]: the sum over the number of elements; NaN on the empty
    tensor. *)
Definition mean (a : t) : scalar :=
  match a with
  | [] => NaN
  | _ :: _ => Finite (sum a / INR (length a))%R
  end.

(** [torch.pow(a, 2)] *)
Definition pow2 (a : t) : t := map (fun x => (x ^ 2)%R) a.

(** [torch.clamp(a, min=m)] *)
Definition clamp_min (m : R) (a : t) : t := map (fun x => Rmax x m) a.

(** [s - a] for a Python scalar [s] *)
Definition rsub (s : R) (a : t) : t := map (fun x => (s - x)%R) a.

End Tensor.

(** The distance the library documents for [pairwise_distance] on one row:
    the 2-norm of [x1 - x2 + eps].  It is the library's value for two rows
    of one width, as the two outputs of one network are; on rows of
    different widths the library broadcasts or fails, which is left out
    here. *)
Definition l2_distance (eps : R) (x1 x2 : list R) : R :=
  sqrt (Tensor.sum (Tensor.zip_with (fun a b => ((a - b + eps) ^ 2)%R) x1 x2)).

(** The default [eps] of [torch.nn.functional.pairwise_distance]. *)
Definition torch_eps : R := (1 / 1000000)%R.

(** An embedding: one row of the batch. *)
Definition embedding : Type := list R.

(** [torch.nn.functional.pairwise_distance(output1, output2)] on a batch,
    given the distance [distance] that the library computes on one row. *)
Definition pairwise_distance (distance : embedding -> embedding -> R)
  (output1 output2 : list embedding) : result Tensor.t :=
  Tensor.elementwise distance output1 output2.

Module ContrastiveLoss.

Record t : Type := {
  margin : R
}.

Definition forward (distance : embedding -> embedding -> R) (self : t)
  (output1 output2 : list embedding) (label : Tensor.t)
  : result Tensor.scalar :=
  match pairwise_distance distance output1 output2 with
  | Raise e => Raise e
  | Ok euclidean_distance =>
      match Tensor.elementwise Rmult
              (Tensor.rsub 1 label) (Tensor.pow2 euclidean_distance) with
      | Raise e => Raise e
      | Ok similar_term =>
          match Tensor.elementwise Rmult label
                  (Tensor.pow2
                     (Tensor.clamp_min 0
                        (Tensor.rsub (margin self) euclidean_distance))) with
          | Raise e => Raise e
          | Ok dissimilar_term =>
              match Tensor.elementwise Rplus similar_term dissimilar_term with
              | Raise e => Raise e
              | Ok per_pair => Ok (Tensor.mean per_pair)
              end
          end
      end
  end.

End ContrastiveLoss.

(** The objective as the specification words it: per pair
    [(1 - label) * d^2 + label * max(0, margin - d)^2], with [d] the
    distance of the pair, averaged over the batch. *)
Definition pair_loss (distance : embedding -> embedding -> R) (m : R)
  (p : embedding * embedding * R) : R :=
  let '(vA, vB, label) := p in
  let d := distance vA vB in
  ((1 - label) * d ^ 2 + label * (Rmax 0 (m - d)) ^ 2)%R.

Definition batch_mean_loss (distance : embedding -> embedding -> R) (m : R)
  (batch : list (embedding * embedding * R)) : Tensor.scalar :=
  Tensor.mean (map (pair_loss distance m) batch).

(** ** Floating-point values with their special cases

    A loss that the program computes is a float: a number, an infinity or a
    NaN.  Only the comparisons matter here; a NaN compares false with
    everything, itself included. *)

Module Float.

Inductive t : Type :=
| Fin (r : R)
| PInf
| NInf
| NaN.

(** Python's [a < b]. *)
Definition ltb (a b : t) : bool :=
  match a, b with
  | NaN, _ => false
  | _, NaN => false
  | PInf, _ => false
  | _, NInf => false
  | NInf, Fin _ => true
  | NInf, PInf => true
  | Fin _, PInf => true
  | Fin x, Fin y => if Rlt_dec x y then true else false
  end.

Definition lt (a b : t) : Prop := ltb a b = true.

(** Python's [a == b]. *)
Definition eqb (a b : t) : bool :=
  match a, b with
  | Fin x, Fin y => if Req_dec_T x y then true else false
  | PInf, PInf => true
  | NInf, NInf => true
  | _, _ => false
  end.

End Float.

(** ** The training loop *)

Section Training.

(** What the deep-learning library owns: [world] is the model with its
    optimizer and scheduler, [snapshot] is a saved [state_dict]. *)
Variable world : Type.
Variable snapshot : Type.
(** The training phase of one epoch. *)
Variable train_phase : world -> world.
(** The validation phase: [avg_val_loss] of the current model, a float. *)
Variable validation_phase : world -> Float.t.
(** [scheduler.step(avg_val_loss)] *)
Variable scheduler_step : Float.t -> world -> world.
(** [model.state_dict()] *)
Variable state_dict : world -> snapshot.

Definition num_epochs : nat := 50.
Definition patience : nat := 10.

(** The variables of the notebook that the loop mutates; [checkpoint] is
    the content of [best_siamese_model.pth], [None] while nothing has been
    saved. *)
Record TrainingState : Type := {
  model : world;
  best_val_loss : Float.t;
  early_stop_counter : nat;
  checkpoint : option snapshot
}.

(** [best_val_loss = float('inf')], [early_stop_counter = 0]. *)
Definition initial (w : world) : TrainingState :=
  {| model := w;
     best_val_loss := Float.PInf;
     early_stop_counter := 0;
     checkpoint := None |}.

(** [avg_val_loss < best_val_loss] *)
Definition below (avg_val_loss : Float.t) (best : Float.t) : bool :=
  Float.ltb avg_val_loss best.

(** "Early stopping and model saving": the checkpoint decision. *)
Definition checkpoint_decision (st : TrainingState) (avg_val_loss : Float.t)
  : TrainingState :=
  if below avg_val_loss (best_val_loss st) then
    {| model := model st;
       best_val_loss := avg_val_loss;
       early_stop_counter := 0;
       checkpoint := Some (state_dict (model st)) |}
  else
    {| model := model st;
       best_val_loss := best_val_loss st;
       early_stop_counter := early_stop_counter st + 1;
       checkpoint := checkpoint st |}.

(** One epoch, up to the early-stop test. *)
Definition epoch (st : TrainingState) : TrainingState :=
  let trained :=
    {| model := train_phase (model st);
       best_val_loss := best_val_loss st;
       early_stop_counter := early_stop_counter st;
       checkpoint := checkpoint st |} in
  let avg_val_loss := validation_phase (model trained) in
  let decided := checkpoint_decision trained avg_val_loss in
  {| model := scheduler_step avg_val_loss (model decided);
     best_val_loss := best_val_loss decided;
     early_stop_counter := early_stop_counter decided;
     checkpoint := checkpoint decided |}.

(** [if early_stop_counter >= patience: break] *)
Definition early_stop (st : TrainingState) : bool :=
  patience <=? early_stop_counter st.

(** [for epoch in range(n)]: the final state and the number of epochs run. *)
Fixpoint epochs (n : nat) (st : TrainingState) : TrainingState * nat :=
  match n with
  | O => (st, 0)
  | S n' =>
      let st' := epoch st in
      if early_stop st' then (st', 1)
      else let (st'', k) := epochs n' st' in (st'', S k)
  end.

Definition training_loop (w : world) : TrainingState * nat :=
  epochs num_epochs (initial w).

(** The state after [k] epochs when nothing stops the loop. *)
Fixpoint after_epochs (k : nat) (w : world) : TrainingState :=
  match k with
  | O => initial w
  | S k' => epoch (after_epochs k' w)
  end.

(** The model of epoch [k] (counted from 0) at the end of its training
    phase, and the validation loss measured on it. *)
Definition trained_model (k : nat) (w : world) : world :=
  train_phase (model (after_epochs k w)).

Definition val_loss (k : nat) (w : world) : Float.t :=
  validation_phase (trained_model k w).

End Training.

(** ** Predicates used by the statements *)

(** [label_dict] indexes the samples [done] of [ds]: keys are distinct, the
    bucket of [k] lists, in scan order, the scanned indices labelled [k],
    and no stored bucket is empty. *)
Record indexes {image : Type} (ds : dataset image) (done : list nat)
  (label_dict : Dict.t) : Prop := {
  ix_nodup : NoDup (Dict.keys label_dict);
  ix_bucket : forall k, Dict.bucket label_dict k = filter (has_label ds k) done;
  ix_nonempty : forall k v, Dict.get label_dict k = Some v -> v <> []
}.

(** The two indices sit in one bucket of [label_dict]. *)
Definition same_bucket (label_dict : Dict.t) (idx1 idx2 : nat) : Prop :=
  exists L b, Dict.get label_dict L = Some b /\ In idx1 b /\ In idx2 b.

(** The two indices sit in the buckets of two different labels. *)
Definition different_buckets (label_dict : Dict.t) (idx1 idx2 : nat) : Prop :=
  exists L1 b1 L2 b2,
    L1 <> L2 /\
    Dict.get label_dict L1 = Some b1 /\ Dict.get label_dict L2 = Some b2 /\
    In idx1 b1 /\ In idx2 b2.

Definition is_positive (r : pair_record) : bool := Z.eqb (snd r) 0.
Definition is_negative (r : pair_record) : bool := Z.eqb (snd r) 1.

(** What one iteration of the sampler did: the label its positive half
    chose and the records it appended. *)
Record iter_log : Type := {
  chosen : Z;
  appended : list pair_record
}.

(** [log] describes the successive iterations that start from stream [g]
    with [pairs] already generated. *)
Fixpoint follows (label_dict : Dict.t) (g : rng) (pairs : list pair_record)
  (log : list iter_log) : Prop :=
  match log with
  | [] => True
  | it :: rest =>
      chosen_label label_dict g = Ok (chosen it) /\
      exists g',
        iteration label_dict (Dict.keys label_dict) pairs g
        = Ok (pairs ++ appended it, g') /\
        follows label_dict g' (pairs ++ appended it) rest
  end.

(** The shape of the records of one iteration, given the bucket of the
    label that was chosen: positive then negative, or the negative alone
    exactly when the bucket has fewer than two members. *)
Definition iteration_shape (label_dict : Dict.t) (it : iter_log) : Prop :=
  exists b,
    Dict.get label_dict (chosen it) = Some b /\
    ((2 <= length b /\
      exists i j a c, appended it = [(i, j, 0%Z); (a, c, 1%Z)]) \/
     (length b < 2 /\
      exists a c, appended it = [(a, c, 1%Z)])).

(** A pair record agrees with the base dataset and the label index: a
    record marked 0 joins two distinct indices of one bucket, with equal
    labels; a record marked 1 joins indices of the buckets of two different
    labels, with different labels. *)
Definition consistent {image : Type} (ds : dataset image)
  (label_dict : Dict.t) (r : pair_record) : Prop :=
  let '(idx1, idx2, sim) := r in
  (sim = 0%Z /\ idx1 <> idx2 /\ same_bucket label_dict idx1 idx2 /\
   exists L, label_at ds idx1 = Some L /\ label_at ds idx2 = Some L) \/
  (sim = 1%Z /\ different_buckets label_dict idx1 idx2 /\
   exists L1 L2,
     label_at ds idx1 = Some L1 /\ label_at ds idx2 = Some L2 /\ L1 <> L2).

(** A batch as the data loader collates it: one row per pair, holding
    the two embeddings and the label. *)
Definition batch_row : Type := (embedding * embedding * R)%type.

Definition row_output1 (p : batch_row) : embedding := fst (fst p).
Definition row_output2 (p : batch_row) : embedding := snd (fst p).
Definition row_label (p : batch_row) : R := snd p.

(** The loss of a collated batch. *)
Definition loss_of_batch (distance : embedding -> embedding -> R)
  (self : ContrastiveLoss.t) (batch : list batch_row)
  : result Tensor.scalar :=
  ContrastiveLoss.forward distance self
    (map row_output1 batch) (map row_output2 batch) (map row_label batch).

(** The validation loss [v] is strictly below the best seen so far. *)
Definition improves (v : Float.t) (best : Float.t) : Prop :=
  Float.lt v best.

(** Epoch [j] sets a new low among the losses [loss 0 .. loss j]: its loss
    is below infinity and below every earlier loss that is a number or an
    infinity (a NaN is never a low, and never stands in the way). *)
Definition new_low (loss : nat -> Float.t) (j : nat) : Prop :=
  Float.lt (loss j) Float.PInf /\
  forall i, i < j -> loss i = Float.NaN \/ Float.lt (loss j) (loss i).

(** ** Sample inputs *)

(** Four samples with labels 0, 0, 1, 1 and their label index. *)
Definition toy_dataset : dataset unit :=
  [(tt, 0%Z); (tt, 0%Z); (tt, 1%Z); (tt, 1%Z)].

Definition toy_label_dict : Dict.t := [(0%Z, [0; 1]); (1%Z, [2; 3])].

(** The same four labels, on samples that tell the positions apart. *)
Definition numbered_dataset : dataset nat :=
  [(10, 0%Z); (11, 0%Z); (12, 1%Z); (13, 1%Z)].

(** A dictionary with two labels, one of them with an empty bucket. *)
Definition empty_bucket_dict : Dict.t := [(0%Z, []); (1%Z, [7])].

(** The stream 0, 1, 2, ... *)
Definition counting_rng : rng := fun k => k.

(** [criterion = ContrastiveLoss(margin=1.0)] *)
Definition criterion : ContrastiveLoss.t := {| ContrastiveLoss.margin := 1 |}.

(** The row distance of the library with its default [eps]. *)
Definition torch_distance : embedding -> embedding -> R :=
  l2_distance torch_eps.

(** The distance as the specification words it: the Euclidean distance of
    two embeddings, the 2-norm of their difference. *)
Definition euclidean_distance (x1 x2 : embedding) : R :=
  sqrt (Tensor.sum (Tensor.zip_with (fun a b => ((a - b) ^ 2)%R) x1 x2)).

(** The two embeddings of a row have one width. *)
Definition same_width (p : batch_row) : Prop :=
  length (row_output1 p) = length (row_output2 p).

(** A batch with one pair of each kind: label 0 at computed distance 0, and
    label 1 at a computed distance above the margin 1. *)
Definition mixed_batch : list batch_row :=
  [([0%R], [torch_eps], 0%R); ([3%R], [0%R], 1%R)].

(** A run whose validation loss never changes: the library parts do
    nothing and every epoch measures the loss 0. *)
Definition flat_training_loop : TrainingState unit unit * nat :=
  training_loop (fun w : unit => w) (fun _ => Float.Fin 0) (fun _ w => w)
    (fun w : unit => w) tt.

(** The state of that run once the first epoch is over, [c] epochs after
    the only improvement. *)
Definition flat_state (c : nat) : TrainingState unit unit :=
  {| model := tt;
     best_val_loss := Float.Fin 0;
     early_stop_counter := c;
     checkpoint := Some tt |}.

(** A run whose validation loss is a NaN in every epoch. *)
Definition nan_training_loop : TrainingState unit unit * nat :=
  training_loop (fun w : unit => w) (fun _ => Float.NaN) (fun _ w => w)
    (fun w : unit => w) tt.

(** ** The metrics of an epoch

    The training phase and the validation phase accumulate the same three
    numbers over the batches of their loader and divide at the end. *)

Module Metrics.

(** What the loop reads off one batch: [loss.item()] and, sample by sample,
    the distance of the two embeddings with the label of the pair, both
    floats. *)
Record batch_outcome : Type := {
  loss_item : R;
  scored : list (Float.t * Float.t)
}.

(** [(similarity_scores > 0.5).float()] on one sample; the comparison is
    false on a NaN. *)
Definition prediction (similarity_score : Float.t) : Float.t :=
  if Float.ltb (Float.Fin (1 / 2)) similarity_score
  then Float.Fin 1 else Float.Fin 0.

(** [predictions == labels] on one sample. *)
Definition correct (row : Float.t * Float.t) : bool :=
  let '(similarity_score, label) := row in
  Float.eqb (prediction similarity_score) label.

(** [total_loss], [correct_predictions], [total_samples]. *)
Record totals : Type := {
  total_loss : R;
  correct_predictions : nat;
  total_samples : nat
}.

Definition zero : totals :=
  {| total_loss := 0; correct_predictions := 0; total_samples := 0 |}.

(** The three [+=] of the body of the batch loop. *)
Definition accumulate (t : totals) (b : batch_outcome) : totals :=
  {| total_loss := total_loss t + loss_item b;
     correct_predictions :=
       correct_predictions t + length (filter correct (scored b));
     total_samples := total_samples t + length (scored b) |}.

Definition run_batches (batches : list batch_outcome) : totals :=
  fold_left accumulate batches zero.

(** Python's [/]: [None] is the [ZeroDivisionError]. *)
Definition true_div (a : R) (n : nat) : option R :=
  if n =? 0 then None else Some (a / INR n)%R.

(** [(avg_train_loss, train_accuracy)], or [(avg_val_loss, val_accuracy)]:
    the loss total over the number of batches, the correct predictions over
    the number of samples. *)
Definition epoch_metrics (batches : list batch_outcome) : option (R * R) :=
  let t := run_batches batches in
  match true_div (total_loss t) (length batches) with
  | None => None
  | Some avg_loss =>
      match true_div (INR (correct_predictions t)) (total_samples t) with
      | None => None
      | Some accuracy => Some (avg_loss, accuracy)
      end
  end.

End Metrics.

(** ** More predicates and sample inputs *)

(** The labels of [l] in the order of their first occurrence, skipping
    those already in [seen]. *)
Fixpoint first_seen (seen : list Z) (l : list Z) : list Z :=
  match l with
  | [] => []
  | x :: l' =>
      if existsb (Z.eqb x) seen then first_seen seen l'
      else x :: first_seen (seen ++ [x]) l'
  end.

(** The labels met at the indices [idxs] of [ds], in that order. *)
Definition labels_of {image : Type} (ds : dataset image) (idxs : list nat)
  : list Z :=
  flat_map (fun i => match label_at ds i with
                     | Some l => [l]
                     | None => []
                     end) idxs.

(** A world that counts its epochs and whose validation loss falls with
    every epoch. *)
Definition falling_loss (w : nat) : Float.t := Float.Fin (- INR w).

(** * Properties *)

Unset Implicit Arguments.

(** ** Facts about the dictionary *)

Module DictFacts.

Lemma get_set_same (d : Dict.t) (k : Z) (v : list nat) :
  Dict.get (Dict.set d k v) k = Some v.
Proof.
  induction d as [|[k' v'] d IH]; simpl.
  - now rewrite Z.eqb_refl.
  - destruct (Z.eqb k k') eqn:E; simpl; rewrite E; auto.
Qed.

Lemma get_set_other (d : Dict.t) (k k' : Z) (v : list nat) :
  k <> k' -> Dict.get (Dict.set d k v) k' = Dict.get d k'.
Proof.
  intros Hne. induction d as [|[k0 v0] d IH]; simpl.
  - destruct (Z.eqb k' k) eqn:E; auto. apply Z.eqb_eq in E. congruence.
  - destruct (Z.eqb k k0) eqn:E; simpl.
    + apply Z.eqb_eq in E. subst k0.
      destruct (Z.eqb k' k) eqn:E'; auto.
      apply Z.eqb_eq in E'. congruence.
    + now rewrite IH.
Qed.

Lemma get_some_in_keys (d : Dict.t) (k : Z) (v : list nat) :
  Dict.get d k = Some v -> In k (Dict.keys d).
Proof.
  induction d as [|[k' v'] d IH]; simpl; [discriminate|].
  destruct (Z.eqb k k') eqn:E.
  - apply Z.eqb_eq in E. auto.
  - intros H. right. now apply IH.
Qed.

Lemma get_none_not_in_keys (d : Dict.t) (k : Z) :
  Dict.get d k = None -> ~ In k (Dict.keys d).
Proof.
  induction d as [|[k' v'] d IH]; simpl; [tauto|].
  destruct (Z.eqb k k') eqn:E; [discriminate|].
  apply Z.eqb_neq in E. intros H [H1|H1]; [congruence|]. now apply IH.
Qed.

Lemma in_keys_get (d : Dict.t) (k : Z) :
  In k (Dict.keys d) -> exists v, Dict.get d k = Some v.
Proof.
  intros Hin. destruct (Dict.get d k) eqn:E; [eauto|].
  now apply get_none_not_in_keys in E.
Qed.

Lemma keys_set_present (d : Dict.t) (k : Z) (v w : list nat) :
  Dict.get d k = Some w -> Dict.keys (Dict.set d k v) = Dict.keys d.
Proof.
  unfold Dict.keys.
  induction d as [|[k' v'] d IH]; simpl; [discriminate|].
  destruct (Z.eqb k k') eqn:E; simpl; [reflexivity|].
  intros H. now rewrite IH.
Qed.

Lemma keys_set_absent (d : Dict.t) (k : Z) (v : list nat) :
  Dict.get d k = None -> Dict.keys (Dict.set d k v) = Dict.keys d ++ [k].
Proof.
  unfold Dict.keys.
  induction d as [|[k' v'] d IH]; simpl; [reflexivity|].
  destruct (Z.eqb k k') eqn:E; simpl; [discriminate|].
  intros H. now rewrite IH.
Qed.

Lemma get_in (d : Dict.t) (k : Z) (v : list nat) :
  Dict.get d k = Some v -> In (k, v) d.
Proof.
  induction d as [|[k' v'] d IH]; simpl; [discriminate|].
  destruct (Z.eqb k k') eqn:E.
  - apply Z.eqb_eq in E. intros [= ->]. subst. auto.
  - auto.
Qed.

Lemma in_get (d : Dict.t) (k : Z) (v : list nat) :
  NoDup (Dict.keys d) -> In (k, v) d -> Dict.get d k = Some v.
Proof.
  induction d as [|[k' v'] d IH]; simpl; [tauto|].
  intros Hnd [H|H].
  - injection H as -> ->. now rewrite Z.eqb_refl.
  - inversion Hnd as [|? ? Hnotin Hnd']; subst.
    destruct (Z.eqb k k') eqn:E.
    + apply Z.eqb_eq in E. subst k'. exfalso. apply Hnotin.
      change (In (fst (k, v)) (map fst d)). now apply in_map.
    + now apply IH.
Qed.

End DictFacts.

(** ** organize_by_label builds the label index *)

Section LabelIndexFacts.

Variable image : Type.
Variable ds : dataset image.

Lemma bucket_set (d : Dict.t) (k k' : Z) (v : list nat) :
  Dict.bucket (Dict.set d k v) k' = if Z.eqb k k' then v else Dict.bucket d k'.
Proof.
  unfold Dict.bucket. destruct (Z.eqb k k') eqn:E.
  - apply Z.eqb_eq in E. subst. now rewrite DictFacts.get_set_same.
  - apply Z.eqb_neq in E. now rewrite DictFacts.get_set_other.
Qed.

Lemma has_label_at (idx : nat) (img : image) (label k : Z) :
  nth_error ds idx = Some (img, label) ->
  has_label ds k idx = Z.eqb label k.
Proof.
  intros H. unfold has_label, label_at. now rewrite H.
Qed.

Lemma indexes_empty : indexes ds [] [].
Proof.
  split; simpl; auto.
  - constructor.
  - discriminate.
Qed.

Lemma organize_step_indexes (done : list nat) (d : Dict.t) (idx : nat) :
  idx < length ds ->
  indexes ds done d ->
  exists d', organize_step ds d idx = Ok d' /\ indexes ds (done ++ [idx]) d'.
Proof.
  intros Hlt [Hnd Hb Hne].
  destruct (nth_error ds idx) as [[img label]|] eqn:Hnth;
    [|apply nth_error_None in Hnth; lia].
  unfold organize_step, getitem. rewrite Hnth.
  unfold Dict.contains, Dict.append.
  destruct (Dict.get d label) as [v|] eqn:Hget; simpl.
  - rewrite Hget. eexists. split; [reflexivity|]. split.
    + now rewrite (DictFacts.keys_set_present _ _ _ _ Hget).
    + intros k. rewrite bucket_set, filter_app. simpl.
      rewrite (@has_label_at idx img label k Hnth).
      destruct (Z.eqb label k) eqn:E.
      * apply Z.eqb_eq in E. subst k. rewrite <- Hb.
        unfold Dict.bucket. now rewrite Hget.
      * rewrite app_nil_r. apply Hb.
    + intros k w. destruct (Z.eq_dec label k) as [->|Hk].
      * rewrite DictFacts.get_set_same. intros [= <-].
        now destruct v.
      * rewrite DictFacts.get_set_other by assumption. apply Hne.
  - rewrite DictFacts.get_set_same. eexists. split; [reflexivity|].
    assert (Hget1 : Dict.get (Dict.set d label []) label = Some [])
      by apply DictFacts.get_set_same.
    split.
    + rewrite (DictFacts.keys_set_present _ _ _ _ Hget1).
      rewrite (DictFacts.keys_set_absent _ _ _ Hget).
      apply NoDup_app; auto.
      * repeat constructor. simpl. tauto.
      * intros x Hx [<-|[]].
        now apply (DictFacts.get_none_not_in_keys _ _ Hget).
    + intros k. rewrite !bucket_set, filter_app. simpl.
      rewrite (@has_label_at idx img label k Hnth).
      destruct (Z.eqb label k) eqn:E.
      * apply Z.eqb_eq in E. subst k. rewrite <- Hb.
        unfold Dict.bucket. now rewrite Hget.
      * rewrite app_nil_r. apply Hb.
    + intros k w. destruct (Z.eq_dec label k) as [->|Hk].
      * rewrite DictFacts.get_set_same. intros [= <-]. discriminate.
      * rewrite !DictFacts.get_set_other by assumption. apply Hne.
Qed.

Lemma organize_loop_indexes (idxs done : list nat) (d : Dict.t) :
  (forall i, In i idxs -> i < length ds) ->
  indexes ds done d ->
  exists d', organize_loop ds idxs d = Ok d' /\ indexes ds (done ++ idxs) d'.
Proof.
  revert done d. induction idxs as [|idx rest IH]; intros done d Hr Hi; simpl.
  - exists d. now rewrite app_nil_r.
  - destruct (@organize_step_indexes done d idx) as (d1 & -> & Hi1);
      [apply Hr; now left|assumption|].
    destruct (IH (done ++ [idx]) d1) as (d' & Hd' & Hi');
      [intros i Hin; apply Hr; now right|assumption|].
    exists d'. split; [assumption|].
    now rewrite <- app_assoc in Hi'.
Qed.

Lemma organize_by_label_indexes :
  exists d, organize_by_label ds = Ok d /\ indexes ds (seq 0 (length ds)) d.
Proof.
  unfold organize_by_label.
  destruct (@organize_loop_indexes (seq 0 (length ds)) [] [])
    as (d & Hd & Hi).
  - intros i Hin. apply in_seq in Hin. lia.
  - apply indexes_empty.
  - now exists d.
Qed.

End LabelIndexFacts.

Section LabelIndexConsequences.

Variable image : Type.
Variable ds : dataset image.
Variable done : list nat.
Variable d : Dict.t.
Hypothesis Hix : indexes ds done d.
Hypothesis Hdone : NoDup done.

Lemma has_label_true (k : Z) (i : nat) :
  has_label ds k i = true <-> label_at ds i = Some k.
Proof.
  unfold has_label. destruct (label_at ds i) as [l|]; split; try discriminate.
  - intros H. apply Z.eqb_eq in H. now subst.
  - intros [= ->]. apply Z.eqb_refl.
Qed.

Lemma stored_bucket (k : Z) (v : list nat) :
  Dict.get d k = Some v -> v = filter (has_label ds k) done.
Proof.
  intros H. rewrite <- (ix_bucket Hix). unfold Dict.bucket. now rewrite H.
Qed.

Lemma bucket_of_scanned (i : nat) (L : Z) :
  In i done -> label_at ds i = Some L ->
  exists b, Dict.get d L = Some b /\ In i b.
Proof.
  intros Hin Hl.
  assert (Hb : In i (Dict.bucket d L)).
  { rewrite (ix_bucket Hix). apply filter_In. split; [assumption|].
    now apply has_label_true. }
  unfold Dict.bucket in Hb. destruct (Dict.get d L) as [b|]; [|destruct Hb].
  now exists b.
Qed.

Lemma bucket_members (L : Z) (b : list nat) (i : nat) :
  Dict.get d L = Some b -> In i b -> In i done /\ label_at ds i = Some L.
Proof.
  intros Hget Hin. rewrite (stored_bucket _ _ Hget) in Hin.
  apply filter_In in Hin. destruct Hin as [Hin Hl].
  split; [assumption|]. now apply has_label_true.
Qed.

Lemma bucket_nodup (L : Z) (b : list nat) :
  Dict.get d L = Some b -> NoDup b.
Proof.
  intros Hget. rewrite (stored_bucket _ _ Hget). now apply NoDup_filter.
Qed.

Lemma buckets_nodup_concat (l : list (Z * list nat)) :
  NoDup (map fst l) ->
  (forall k v, In (k, v) l -> v = filter (has_label ds k) done) ->
  NoDup (concat (map snd l)).
Proof.
  induction l as [|[k v] l IH]; simpl; intros Hnd Hall; [constructor|].
  inversion Hnd as [|? ? Hnotin Hnd']; subst.
  apply NoDup_app.
  - rewrite (Hall k v) by now left. now apply NoDup_filter.
  - apply IH; [assumption|]. intros k' v' Hin. apply Hall. now right.
  - intros x Hx Hx'. apply in_concat in Hx'. destruct Hx' as (v' & Hv' & Hxv').
    apply in_map_iff in Hv'. destruct Hv' as ([k' w] & Hw & Hin). simpl in Hw.
    subst w.
    rewrite (Hall k v) in Hx by now left.
    rewrite (Hall k' v') in Hxv' by now right.
    apply filter_In in Hx, Hxv'.
    destruct Hx as [_ Hx]. destruct Hxv' as [_ Hxv'].
    apply has_label_true in Hx, Hxv'.
    assert (k = k') by congruence. subst k'.
    apply Hnotin. change (In (fst (k, v')) (map fst l)). now apply in_map.
Qed.

Lemma buckets_partition :
  (forall i, In i done -> i < length ds) ->
  Permutation (concat (map snd d)) done.
Proof.
  intros Hrange. apply NoDup_Permutation; [| assumption |].
  - apply buckets_nodup_concat; [apply (ix_nodup Hix)|].
    intros k v Hin. apply stored_bucket.
    apply DictFacts.in_get; [apply (ix_nodup Hix)|assumption].
  - intros x. split.
    + intros Hx. apply in_concat in Hx. destruct Hx as (v & Hv & Hxv).
      apply in_map_iff in Hv. destruct Hv as ([k w] & Hw & Hin).
      simpl in Hw. subst w.
      apply DictFacts.in_get in Hin; [|apply (ix_nodup Hix)].
      now destruct (bucket_members _ _ _ Hin Hxv).
    + intros Hx.
      destruct (nth_error ds x) as [[img L]|] eqn:Hnth.
      * assert (Hl : label_at ds x = Some L)
          by (unfold label_at; now rewrite Hnth).
        destruct (bucket_of_scanned _ _ Hx Hl) as (b & Hget & Hin).
        apply in_concat. exists b. split; [|assumption].
        apply in_map_iff. exists (L, b). split; [reflexivity|].
        now apply DictFacts.get_in.
      * apply nth_error_None in Hnth. specialize (Hrange x Hx). lia.
Qed.

End LabelIndexConsequences.

(** C8.  [organize_by_label] returns, for every dataset, a dictionary with
    distinct keys whose buckets together hold every index below
    [len(dataset)] exactly once (the scan visits each index once); each index
    sits once in the bucket of its own label and in no other bucket; every
    label present in the data has a non-empty bucket, no stored bucket is
    empty, and every index of the bucket of [L] has label [L] (the bucket is
    the increasing list of the indices labelled [L]). *)
Theorem organize_by_label_partition (image : Type) (ds : dataset image) :
  exists label_dict,
    organize_by_label ds = Ok label_dict /\
    NoDup (Dict.keys label_dict) /\
    Permutation (concat (map snd label_dict)) (seq 0 (length ds)) /\
    (forall i, i < length ds ->
       exists L b,
         label_at ds i = Some L /\
         Dict.get label_dict L = Some b /\
         count_occ Nat.eq_dec b i = 1 /\
         forall L' b', Dict.get label_dict L' = Some b' -> In i b' -> L' = L) /\
    (forall L i, label_at ds i = Some L ->
       exists b, Dict.get label_dict L = Some b /\ b <> []) /\
    (forall L b, Dict.get label_dict L = Some b ->
       b <> [] /\
       b = filter (has_label ds L) (seq 0 (length ds)) /\
       forall i, In i b -> i < length ds /\ label_at ds i = Some L).
Proof.
  destruct (organize_by_label_indexes image ds) as (d & Hd & Hix).
  pose proof (seq_NoDup (length ds) 0) as Hnd.
  assert (Hrange : forall i, In i (seq 0 (length ds)) -> i < length ds)
    by (intros i Hi; apply in_seq in Hi; lia).
  exists d. split; [assumption|]. split; [apply (ix_nodup Hix)|].
  split; [apply (buckets_partition _ _ _ _ Hix Hnd Hrange)|]. split; [|split].
  - intros i Hi.
    destruct (nth_error ds i) as [[img L]|] eqn:Hnth;
      [|apply nth_error_None in Hnth; lia].
    assert (Hl : label_at ds i = Some L) by (unfold label_at; now rewrite Hnth).
    assert (Hin : In i (seq 0 (length ds))) by (apply in_seq; lia).
    destruct (bucket_of_scanned _ _ _ _ Hix _ _ Hin Hl) as (b & Hget & Hib).
    exists L, b. repeat split; try assumption.
    + apply NoDup_count_occ'; [|assumption].
      apply (bucket_nodup _ _ _ _ Hix Hnd _ _ Hget).
    + intros L' b' Hget' Hib'.
      destruct (bucket_members _ _ _ _ Hix _ _ _ Hget' Hib') as [_ Hl'].
      congruence.
  - intros L i Hl.
    assert (Hi : i < length ds).
    { unfold label_at in Hl. destruct (nth_error ds i) eqn:E; [|discriminate].
      apply nth_error_Some. congruence. }
    assert (Hin : In i (seq 0 (length ds))) by (apply in_seq; lia).
    destruct (bucket_of_scanned _ _ _ _ Hix _ _ Hin Hl) as (b & Hget & Hib).
    exists b. split; [assumption|]. intros ->. destruct Hib.
  - intros L b Hget. split; [apply (ix_nonempty Hix _ Hget)|].
    split; [apply (stored_bucket _ _ _ _ Hix _ _ Hget)|].
    intros i Hib.
    destruct (bucket_members _ _ _ _ Hix _ _ _ Hget Hib) as [Hin Hl].
    split; [now apply Hrange|assumption].
Qed.

Example organize_by_label_toy :
  organize_by_label [(tt, 0%Z); (tt, 0%Z); (tt, 1%Z); (tt, 1%Z)]
  = Ok [(0%Z, [0; 1]); (1%Z, [2; 3])].
Proof. reflexivity. Qed.

(** ** The random source *)

Module RandFacts.

Lemma bind_ok {A B : Type} (m : Rand A) (f : A -> Rand B) (g : rng)
  (r : B * rng) :
  bind m f g = Ok r -> exists a g1, m g = Ok (a, g1) /\ f a g1 = Ok r.
Proof.
  unfold bind. destruct (m g) as [[a g1]|e]; [|discriminate].
  intros H. now exists a, g1.
Qed.

Lemma bind_run {A B : Type} (m : Rand A) (f : A -> Rand B) (g g1 : rng)
  (a : A) :
  m g = Ok (a, g1) -> bind m f g = f a g1.
Proof. unfold bind. now intros ->. Qed.

Lemma bind_raise {A B : Type} (m : Rand A) (f : A -> Rand B) (g : rng)
  (e : exn) :
  m g = Raise e -> bind m f g = Raise e.
Proof. unfold bind. now intros ->. Qed.

Lemma randbelow_lt (n : nat) (g g' : rng) (i : nat) :
  0 < n -> randbelow n g = Ok (i, g') -> i < n.
Proof.
  intros Hn [= <- _]. apply Nat.mod_upper_bound. lia.
Qed.

Lemma random_choice_total {A : Type} (l : list A) (g : rng) :
  l <> [] -> exists x g', random_choice l g = Ok (x, g') /\ In x l.
Proof.
  intros Hne. destruct l as [|a l]; [congruence|].
  unfold random_choice, bind, randbelow.
  set (i := g 0 mod length (a :: l)).
  assert (Hi : i < length (a :: l))
    by (apply Nat.mod_upper_bound; simpl; lia).
  destruct (nth_error (a :: l) i) as [x|] eqn:E.
  - exists x. eexists. split; [reflexivity|]. eapply nth_error_In, E.
  - apply nth_error_None in E. lia.
Qed.

Lemma random_choice_in {A : Type} (l : list A) (g g' : rng) (x : A) :
  random_choice l g = Ok (x, g') -> In x l.
Proof.
  destruct l as [|a l]; [discriminate|].
  unfold random_choice, bind, randbelow.
  destruct (nth_error (a :: l) _) as [y|] eqn:E; [|discriminate].
  intros [= <- _]. eapply nth_error_In, E.
Qed.

Lemma random_choice_empty {A : Type} (g : rng) :
  random_choice (@nil A) g = Raise IndexError.
Proof. reflexivity. Qed.

Lemma random_sample2_short {A : Type} (l : list A) (g : rng) :
  length l < 2 -> random_sample2 l g = Raise ValueError.
Proof.
  intros H. unfold random_sample2.
  destruct (Nat.ltb_spec (length l) 2); [reflexivity|lia].
Qed.

Lemma random_sample2_total {A : Type} (l : list A) (g : rng) :
  2 <= length l ->
  exists x y g', random_sample2 l g = Ok ((x, y), g') /\
    exists i j, i <> j /\ nth_error l i = Some x /\ nth_error l j = Some y.
Proof.
  intros H. unfold random_sample2, bind, randbelow.
  destruct (Nat.ltb_spec (length l) 2); [lia|].
  set (i := g 0 mod length l).
  set (j0 := g 1 mod (length l - 1)).
  assert (Hi : i < length l) by (apply Nat.mod_upper_bound; lia).
  assert (Hj0 : j0 < length l - 1) by (apply Nat.mod_upper_bound; lia).
  set (j := if j0 <? i then j0 else S j0).
  assert (Hj : j < length l /\ i <> j).
  { unfold j. destruct (Nat.ltb_spec j0 i); lia. }
  destruct (nth_error l i) as [x|] eqn:Ei;
    [|apply nth_error_None in Ei; lia].
  destruct (nth_error l j) as [y|] eqn:Ej;
    [|apply nth_error_None in Ej; lia].
  exists x, y. eexists. split; [reflexivity|].
  exists i, j. tauto.
Qed.

Lemma random_sample2_distinct {A : Type} (l : list A) (g g' : rng) (x y : A) :
  random_sample2 l g = Ok ((x, y), g') ->
  exists i j, i <> j /\ nth_error l i = Some x /\ nth_error l j = Some y.
Proof.
  intros H.
  destruct (Nat.lt_ge_cases (length l) 2) as [Hs|Hs].
  - rewrite random_sample2_short in H by assumption. discriminate.
  - destruct (random_sample2_total l g Hs) as (x' & y' & g1 & E & Hij).
    rewrite E in H. injection H as <- <- _. exact Hij.
Qed.

(** Every outcome of the library is the outcome of some stream. *)
Lemma random_choice_any {A : Type} (l : list A) (i : nat) (x : A) :
  nth_error l i = Some x ->
  exists g g', random_choice l g = Ok (x, g').
Proof.
  intros H.
  assert (Hi : i < length l) by (apply nth_error_Some; congruence).
  exists (fun _ => i). eexists.
  destruct l as [|a l]; [simpl in Hi; lia|].
  unfold random_choice, bind, randbelow.
  rewrite Nat.mod_small by assumption. rewrite H. reflexivity.
Qed.

Lemma random_sample2_any {A : Type} (l : list A) (i j : nat) (x y : A) :
  i <> j -> nth_error l i = Some x -> nth_error l j = Some y ->
  exists g g', random_sample2 l g = Ok ((x, y), g').
Proof.
  intros Hij Hx Hy.
  assert (Hi : i < length l) by (apply nth_error_Some; congruence).
  assert (Hj : j < length l) by (apply nth_error_Some; congruence).
  set (g := fun k =>
              match k with 0 => i | _ => if j <? i then j else j - 1 end).
  exists g, (fun k => g (S (S k))).
  unfold random_sample2, bind, randbelow, g.
  destruct (Nat.ltb_spec (length l) 2); [lia|].
  rewrite (Nat.mod_small i) by assumption.
  destruct (Nat.ltb_spec j i) as [Hlt|Hge].
  - rewrite (Nat.mod_small j) by lia.
    destruct (Nat.ltb_spec j i); [|lia].
    rewrite Hx, Hy. reflexivity.
  - rewrite (Nat.mod_small (j - 1)) by lia.
    destruct (Nat.ltb_spec (j - 1) i); [lia|].
    replace (S (j - 1)) with j by lia.
    rewrite Hx, Hy. reflexivity.
Qed.

End RandFacts.

(** ** The pair sampler *)

Ltac rand_inv H :=
  repeat
    match type of H with
    | bind _ _ _ = Ok _ =>
        let a := fresh "a" in
        let g := fresh "g" in
        let E := fresh "E" in
        apply RandFacts.bind_ok in H; destruct H as (a & g & E & H)
    end.

Section Sampler.

Variable label_dict : Dict.t.

Lemma dict_getitem_ok (L : Z) (g g' : rng) (b : list nat) :
  dict_getitem label_dict L g = Ok (b, g') ->
  Dict.get label_dict L = Some b /\ g' = g.
Proof.
  unfold dict_getitem. destruct (Dict.get label_dict L); [|discriminate].
  now intros [= -> ->].
Qed.

Lemma dict_getitem_run (L : Z) (g : rng) (b : list nat) :
  Dict.get label_dict L = Some b ->
  dict_getitem label_dict L g = Ok (b, g).
Proof. unfold dict_getitem. now intros ->. Qed.

Lemma positive_pair_inv (labels : list Z) (pairs pairs' : list pair_record)
  (g g' : rng) :
  positive_pair label_dict labels pairs g = Ok (pairs', g') ->
  exists L b g1,
    random_choice labels g = Ok (L, g1) /\
    Dict.get label_dict L = Some b /\
    ((2 <= length b /\
      exists x y p q,
        p <> q /\ nth_error b p = Some x /\ nth_error b q = Some y /\
        pairs' = pairs ++ [(x, y, 0%Z)]) \/
     (length b < 2 /\ pairs' = pairs /\ g' = g1)).
Proof.
  unfold positive_pair. intros H. rand_inv H.
  apply dict_getitem_ok in E0. destruct E0 as [Hget ->].
  exists a, a0, g0. split; [assumption|]. split; [assumption|].
  destruct (Nat.leb_spec 2 (length a0)) as [Hlen|Hlen].
  - left. split; [assumption|]. rand_inv H. destruct a1 as [x y].
    injection H as <- _.
    apply RandFacts.random_sample2_distinct in E0.
    destruct E0 as (p & q & Hpq & Hp & Hq).
    now exists x, y, p, q.
  - right. injection H as <- <-. auto.
Qed.

Lemma negative_pair_inv (labels : list Z) (pairs pairs' : list pair_record)
  (g g' : rng) :
  negative_pair label_dict labels pairs g = Ok (pairs', g') ->
  exists L1 L2 b1 b2 x y p q,
    p <> q /\ nth_error labels p = Some L1 /\ nth_error labels q = Some L2 /\
    Dict.get label_dict L1 = Some b1 /\ Dict.get label_dict L2 = Some b2 /\
    In x b1 /\ In y b2 /\
    pairs' = pairs ++ [(x, y, 1%Z)].
Proof.
  unfold negative_pair. intros H. rand_inv H. destruct a as [L1 L2].
  rand_inv H. injection H as <- _.
  apply RandFacts.random_sample2_distinct in E.
  destruct E as (p & q & Hpq & Hp & Hq).
  apply dict_getitem_ok in E0, E2. destruct E0 as [H1 ->], E2 as [H2 ->].
  apply RandFacts.random_choice_in in E1, E3.
  exists L1, L2, a, a1, a0, a2, p, q. tauto.
Qed.

Lemma positive_pair_total (labels : list Z) (pairs : list pair_record)
  (g : rng) :
  labels <> [] ->
  (forall L, In L labels -> exists b, Dict.get label_dict L = Some b) ->
  exists pairs' g', positive_pair label_dict labels pairs g = Ok (pairs', g').
Proof.
  intros Hne Hkeys. unfold positive_pair.
  destruct (RandFacts.random_choice_total labels g Hne) as (L & g1 & E & Hin).
  rewrite (RandFacts.bind_run _ _ _ _ _ E).
  destruct (Hkeys L Hin) as (b & Hget).
  rewrite (RandFacts.bind_run _ _ _ _ _ (dict_getitem_run L g1 b Hget)).
  destruct (Nat.leb_spec 2 (length b)) as [Hlen|Hlen].
  - destruct (RandFacts.random_sample2_total b g1 Hlen)
      as (x & y & g2 & E2 & _).
    rewrite (RandFacts.bind_run _ _ _ _ _ E2). now eexists _, _.
  - now eexists _, _.
Qed.

Lemma negative_pair_total (labels : list Z) (pairs : list pair_record)
  (g : rng) :
  2 <= length labels ->
  (forall L, In L labels ->
     exists b, Dict.get label_dict L = Some b /\ b <> []) ->
  exists pairs' g', negative_pair label_dict labels pairs g = Ok (pairs', g').
Proof.
  intros Hlen Hkeys. unfold negative_pair.
  destruct (RandFacts.random_sample2_total labels g Hlen)
    as (L1 & L2 & g1 & E & p & q & _ & Hp & Hq).
  rewrite (RandFacts.bind_run _ _ _ _ _ E).
  apply nth_error_In in Hp, Hq.
  destruct (Hkeys L1 Hp) as (b1 & Hg1 & Hne1).
  destruct (Hkeys L2 Hq) as (b2 & Hg2 & Hne2).
  rewrite (RandFacts.bind_run _ _ _ _ _ (dict_getitem_run L1 g1 b1 Hg1)).
  destruct (RandFacts.random_choice_total b1 g1 Hne1) as (x & g2 & E1 & _).
  rewrite (RandFacts.bind_run _ _ _ _ _ E1).
  rewrite (RandFacts.bind_run _ _ _ _ _ (dict_getitem_run L2 g2 b2 Hg2)).
  destruct (RandFacts.random_choice_total b2 g2 Hne2) as (y & g3 & E2 & _).
  rewrite (RandFacts.bind_run _ _ _ _ _ E2). now eexists _, _.
Qed.

End Sampler.

Section SamplerConsistency.

Variable image : Type.
Variable ds : dataset image.
Variable done : list nat.
Variable label_dict : Dict.t.
Hypothesis Hix : indexes ds done label_dict.
Hypothesis Hdone : NoDup done.

Lemma positive_pair_consistent (pairs pairs' : list pair_record) (g g' : rng) :
  positive_pair label_dict (Dict.keys label_dict) pairs g = Ok (pairs', g') ->
  Forall (consistent ds label_dict) pairs ->
  Forall (consistent ds label_dict) pairs'.
Proof.
  intros H Hall. apply positive_pair_inv in H.
  destruct H as (L & b & g1 & _ & Hget & Hcases).
  destruct Hcases as [(Hlen & x & y & p & q & Hpq & Hp & Hq & ->)
                     | (_ & -> & _)];
    [|assumption].
  apply Forall_app. split; [assumption|]. constructor; [|constructor].
  left. split; [reflexivity|].
  pose proof (bucket_nodup _ _ _ _ Hix Hdone _ _ Hget) as Hnd.
  pose proof (nth_error_In _ _ Hp) as Hx.
  pose proof (nth_error_In _ _ Hq) as Hy.
  split; [|split].
  - intros ->. apply Hpq.
    apply (proj1 (NoDup_nth_error b) Hnd p q); [|congruence].
    apply nth_error_Some. congruence.
  - now exists L, b.
  - exists L. split.
    + apply (bucket_members _ _ _ _ Hix _ _ _ Hget Hx).
    + apply (bucket_members _ _ _ _ Hix _ _ _ Hget Hy).
Qed.

Lemma negative_pair_consistent (pairs pairs' : list pair_record) (g g' : rng) :
  negative_pair label_dict (Dict.keys label_dict) pairs g = Ok (pairs', g') ->
  Forall (consistent ds label_dict) pairs ->
  Forall (consistent ds label_dict) pairs'.
Proof.
  intros H Hall. apply negative_pair_inv in H.
  destruct H as (L1 & L2 & b1 & b2 & x & y & p & q
                 & Hpq & Hp & Hq & Hg1 & Hg2 & Hx & Hy & ->).
  apply Forall_app. split; [assumption|]. constructor; [|constructor].
  right. split; [reflexivity|].
  assert (Hne : L1 <> L2).
  { intros ->. apply Hpq.
    apply (proj1 (NoDup_nth_error (Dict.keys label_dict)) (ix_nodup Hix) p q);
      [|congruence].
    apply nth_error_Some. congruence. }
  split.
  - exists L1, b1, L2, b2. tauto.
  - exists L1, L2. split; [|split; [|assumption]].
    + apply (bucket_members _ _ _ _ Hix _ _ _ Hg1 Hx).
    + apply (bucket_members _ _ _ _ Hix _ _ _ Hg2 Hy).
Qed.

Lemma create_pairs_loop_consistent (n : nat) :
  forall (pairs pairs' : list pair_record) (g g' : rng),
    create_pairs_loop label_dict (Dict.keys label_dict) n pairs g
    = Ok (pairs', g') ->
    Forall (consistent ds label_dict) pairs ->
    Forall (consistent ds label_dict) pairs'.
Proof.
  induction n as [|n IH]; simpl; intros pairs pairs' g g' H Hall.
  - now injection H as <- _.
  - rand_inv H. unfold iteration in E. rand_inv E.
    eapply IH; [exact H|].
    eapply negative_pair_consistent; [exact E|].
    eapply positive_pair_consistent; [exact E0|assumption].
Qed.

End SamplerConsistency.

(** C2.  With [label_dict] the index that [organize_by_label] builds from the
    base dataset, every record [(idx1, idx2, sim)] that [create_pairs]
    returns is marked 0 or 1; marked 0, its indices are distinct members of
    one bucket and carry the same label in the base dataset; marked 1, its
    indices are members of the buckets of two different labels and carry
    different labels in the base dataset. *)
Theorem create_pairs_label_consistency (image : Type) (ds : dataset image)
  (label_dict : Dict.t) (num_pairs : nat) (g : rng)
  (pairs : list pair_record) (idx1 idx2 : nat) (sim : Z) :
  organize_by_label ds = Ok label_dict ->
  create_pairs ds label_dict num_pairs g = Ok pairs ->
  In (idx1, idx2, sim) pairs ->
  (sim = 0%Z \/ sim = 1%Z) /\
  (sim = 0%Z ->
     idx1 <> idx2 /\ same_bucket label_dict idx1 idx2 /\
     exists L, label_at ds idx1 = Some L /\ label_at ds idx2 = Some L) /\
  (sim = 1%Z ->
     different_buckets label_dict idx1 idx2 /\
     exists L1 L2,
       label_at ds idx1 = Some L1 /\ label_at ds idx2 = Some L2 /\ L1 <> L2).
Proof.
  intros Horg Hcp Hin.
  destruct (organize_by_label_indexes image ds) as (d & Hd & Hix).
  rewrite Horg in Hd. injection Hd as <-.
  unfold create_pairs in Hcp.
  destruct (create_pairs_loop _ _ _ _ _) as [[pairs' g']|e] eqn:E;
    [|discriminate].
  injection Hcp as ->.
  pose proof (create_pairs_loop_consistent _ _ _ _ Hix (seq_NoDup _ _)
                _ _ _ _ _ E (Forall_nil _)) as Hall.
  rewrite Forall_forall in Hall. specialize (Hall _ Hin). simpl in Hall.
  destruct Hall as [(-> & H)|(-> & H)].
  - split; [now left|]. split; [intros _; exact H|discriminate].
  - split; [now right|]. split; [discriminate|intros _; exact H].
Qed.

Lemma create_pairs_label_consistency_witness :
  (0 = 0 \/ 0 = 1)%Z /\
  (0%Z = 0%Z ->
     1 <> 0 /\ same_bucket toy_label_dict 1 0 /\
     exists L, label_at toy_dataset 1 = Some L /\
               label_at toy_dataset 0 = Some L) /\
  (0%Z = 1%Z ->
     different_buckets toy_label_dict 1 0 /\
     exists L1 L2,
       label_at toy_dataset 1 = Some L1 /\
       label_at toy_dataset 0 = Some L2 /\ L1 <> L2).
Proof.
  apply (create_pairs_label_consistency unit toy_dataset toy_label_dict 2
           counting_rng
           [(1, 0, 0%Z); (3, 0, 1%Z); (2, 3, 0%Z); (0, 3, 1%Z)]).
  - reflexivity.
  - reflexivity.
  - simpl. auto.
Defined.

(** ** Size and order of the sampler's output *)

Section SamplerShape.

Variable label_dict : Dict.t.
Hypothesis Htwo : 2 <= length (Dict.keys label_dict).
Hypothesis Hfull : Forall (fun kv => snd kv <> []) label_dict.

Lemma key_has_bucket (L : Z) :
  In L (Dict.keys label_dict) ->
  exists b, Dict.get label_dict L = Some b /\ b <> [].
Proof.
  intros Hin. destruct (DictFacts.in_keys_get _ _ Hin) as (b & Hget).
  exists b. split; [assumption|].
  apply DictFacts.get_in in Hget.
  rewrite Forall_forall in Hfull. apply (Hfull _ Hget).
Qed.

Lemma iteration_logged (pairs : list pair_record) (g : rng) :
  exists it g',
    chosen_label label_dict g = Ok (chosen it) /\
    iteration label_dict (Dict.keys label_dict) pairs g
    = Ok (pairs ++ appended it, g') /\
    iteration_shape label_dict it.
Proof.
  assert (Hne : Dict.keys label_dict <> [])
    by (intros E; rewrite E in Htwo; simpl in Htwo; lia).
  destruct (positive_pair_total label_dict (Dict.keys label_dict) pairs g Hne)
    as (p1 & g1 & Hpos).
  { intros L Hin. destruct (key_has_bucket L Hin) as (b & Hb & _). eauto. }
  destruct (negative_pair_total label_dict (Dict.keys label_dict) p1 g1 Htwo
              key_has_bucket) as (p2 & g2 & Hneg).
  pose proof (positive_pair_inv _ _ _ _ _ _ Hpos)
    as (L & b & g0 & Hch & Hget & Hshape).
  pose proof (negative_pair_inv _ _ _ _ _ _ Hneg)
    as (L1 & L2 & b1 & b2 & x & y & p & q & _ & _ & _ & _ & _ & _ & _ & Hp2).
  assert (Hrun : iteration label_dict (Dict.keys label_dict) pairs g
                 = Ok (p2, g2)).
  { unfold iteration. now rewrite (RandFacts.bind_run _ _ _ _ _ Hpos). }
  assert (Hlab : chosen_label label_dict g = Ok L)
    by (unfold chosen_label; now rewrite Hch).
  destruct Hshape as [(Hlen & i & j & _ & _ & _ & _ & _ & Hp1)
                     | (Hlen & Hp1 & _)].
  - exists {| chosen := L; appended := [(i, j, 0%Z); (x, y, 1%Z)] |}, g2.
    simpl. split; [assumption|]. split.
    + rewrite Hrun, Hp2, Hp1, <- app_assoc. reflexivity.
    + exists b. simpl. split; [assumption|]. left. split; [assumption|].
      now exists i, j, x, y.
  - exists {| chosen := L; appended := [(x, y, 1%Z)] |}, g2.
    simpl. split; [assumption|]. split.
    + rewrite Hrun, Hp2, Hp1. reflexivity.
    + exists b. simpl. split; [assumption|]. right. split; [assumption|].
      now exists x, y.
Qed.

Lemma create_pairs_loop_logged (n : nat) :
  forall (pairs : list pair_record) (g : rng),
  exists log g',
    length log = n /\
    follows label_dict g pairs log /\
    create_pairs_loop label_dict (Dict.keys label_dict) n pairs g
    = Ok (pairs ++ concat (map appended log), g') /\
    Forall (iteration_shape label_dict) log.
Proof.
  induction n as [|n IH]; intros pairs g.
  - exists [], g. simpl. rewrite app_nil_r. repeat split. constructor.
  - destruct (iteration_logged pairs g) as (it & g1 & Hch & Hit & Hsh).
    destruct (IH (pairs ++ appended it) g1)
      as (log & g' & Hlen & Hf & Hrun & Hall).
    exists (it :: log), g'. simpl. split; [now rewrite Hlen|].
    split; [|split].
    + split; [assumption|]. now exists g1.
    + rewrite (RandFacts.bind_run _ _ _ _ _ Hit), Hrun, <- app_assoc.
      reflexivity.
    + now constructor.
Qed.

Lemma shaped_log_counts (log : list iter_log) :
  Forall (iteration_shape label_dict) log ->
  length (filter is_negative (concat (map appended log))) = length log /\
  length (filter is_positive (concat (map appended log))) <= length log.
Proof.
  clear Htwo Hfull.
  induction 1 as [|it log Hit _ IH]; simpl; [auto|].
  rewrite !filter_app, !length_app.
  destruct Hit as (b & _ & [(_ & i & j & a & c & ->) | (_ & a & c & ->)]);
    simpl; lia.
Qed.

End SamplerShape.

(** C3, as amended.  For every [label_dict] with at least two labels and no
    empty bucket, and every count [N], [create_pairs] returns: the result is
    the concatenation, in generation order, of what [N] successive
    iterations appended; an iteration whose chosen label has at least two
    members appended a record marked 0 followed by a record marked 1, and an
    iteration whose chosen label has fewer than two members appended the
    record marked 1 alone; hence exactly [N] records marked 1 and at most
    [N] records marked 0. *)
Theorem create_pairs_shape (image : Type) (ds : dataset image)
  (label_dict : Dict.t) (N : nat) (g : rng) :
  2 <= length (Dict.keys label_dict) ->
  Forall (fun kv => snd kv <> []) label_dict ->
  exists pairs log,
    create_pairs ds label_dict N g = Ok pairs /\
    pairs = concat (map appended log) /\
    length log = N /\
    follows label_dict g [] log /\
    Forall (iteration_shape label_dict) log /\
    length (filter is_negative pairs) = N /\
    length (filter is_positive pairs) <= N.
Proof.
  intros Htwo Hfull.
  destruct (create_pairs_loop_logged label_dict Htwo Hfull N [] g)
    as (log & g' & Hlen & Hf & Hrun & Hall).
  exists (concat (map appended log)), log.
  unfold create_pairs. rewrite Hrun. simpl.
  destruct (shaped_log_counts label_dict log Hall) as [Hneg Hpos].
  rewrite Hneg, Hlen in *. repeat split; auto.
Qed.

Lemma create_pairs_shape_witness :
  exists pairs log,
    create_pairs toy_dataset toy_label_dict 2 counting_rng = Ok pairs /\
    pairs = concat (map appended log) /\
    length log = 2 /\
    follows toy_label_dict counting_rng [] log /\
    Forall (iteration_shape toy_label_dict) log /\
    length (filter is_negative pairs) = 2 /\
    length (filter is_positive pairs) <= 2.
Proof.
  apply (create_pairs_shape unit toy_dataset toy_label_dict 2 counting_rng).
  - simpl. lia.
  - repeat constructor; discriminate.
Defined.

(** C3 as stated fails on a dictionary with two labels one of whose buckets
    is empty: the negative draw raises [IndexError], nothing is returned. *)
Lemma create_pairs_empty_bucket_raises :
  2 <= length (Dict.keys empty_bucket_dict) /\
  create_pairs toy_dataset empty_bucket_dict 1 counting_rng
  = Raise IndexError.
Proof. split; [simpl; lia|reflexivity]. Qed.

(** The failure does not depend on the random stream. *)
Lemma negative_pair_empty_bucket (pairs : list pair_record) (g : rng) :
  negative_pair empty_bucket_dict (Dict.keys empty_bucket_dict) pairs g
  = Raise IndexError.
Proof.
  unfold negative_pair.
  destruct (RandFacts.random_sample2_total (Dict.keys empty_bucket_dict) g)
    as (L1 & L2 & g1 & E & i & j & Hij & Hi & Hj); [simpl; lia|].
  rewrite (RandFacts.bind_run _ _ _ _ _ E).
  destruct i as [|[|i]]; simpl in Hi; try (now destruct i);
    destruct j as [|[|j]]; simpl in Hj; try (now destruct j);
    try congruence; injection Hi as <-; injection Hj as <-.
  - reflexivity.
  - rewrite (RandFacts.bind_run _ _ _ _ _
               (dict_getitem_run empty_bucket_dict 1%Z g1 [7] eq_refl)).
    destruct (RandFacts.random_choice_total [7] g1) as (x & g2 & E1 & _);
      [discriminate|].
    rewrite (RandFacts.bind_run _ _ _ _ _ E1). reflexivity.
Qed.

Lemma empty_bucket_always_raises (g : rng) :
  create_pairs toy_dataset empty_bucket_dict 1 g = Raise IndexError.
Proof.
  destruct (positive_pair_total empty_bucket_dict
              (Dict.keys empty_bucket_dict) [] g) as (p1 & g1 & Hpos).
  - discriminate.
  - intros L [<-|[<-|[]]]; eexists; reflexivity.
  - unfold create_pairs. simpl create_pairs_loop. unfold iteration.
    rewrite (RandFacts.bind_raise _ _ _ IndexError); [reflexivity|].
    rewrite (RandFacts.bind_run _ _ _ _ _ Hpos).
    apply negative_pair_empty_bucket.
Qed.

(** ** Too few labels *)

(** C10.  When [label_dict] has fewer than two labels and at least one pair
    is requested, [create_pairs] raises and returns no list: with no label,
    [IndexError] from the choice on the empty label list; with exactly one
    label, [ValueError] from sampling two labels out of one. *)
Theorem create_pairs_too_few_labels (image : Type) (ds : dataset image)
  (label_dict : Dict.t) (N : nat) (g : rng) :
  length (Dict.keys label_dict) < 2 ->
  1 <= N ->
  exists e,
    create_pairs ds label_dict N g = Raise e /\
    (forall pairs, create_pairs ds label_dict N g <> Ok pairs) /\
    (length (Dict.keys label_dict) = 0 -> e = IndexError) /\
    (length (Dict.keys label_dict) = 1 -> e = ValueError).
Proof.
  intros Hfew HN. destruct N as [|N]; [lia|].
  destruct label_dict as [|[L b] [|kv rest]]; simpl in Hfew; [| |lia].
  - exists IndexError. repeat split; try discriminate.
  - assert (Hpos : exists p1 g1,
               positive_pair [(L, b)] (Dict.keys [(L, b)]) [] g = Ok (p1, g1)).
    { apply positive_pair_total; [discriminate|].
      intros L' [<-|[]]. exists b. simpl. now rewrite Z.eqb_refl. }
    destruct Hpos as (p1 & g1 & Hpos).
    assert (Hrun : create_pairs ds [(L, b)] (S N) g = Raise ValueError).
    { unfold create_pairs. simpl create_pairs_loop. unfold iteration.
      rewrite (RandFacts.bind_raise _ _ _ ValueError); [reflexivity|].
      rewrite (RandFacts.bind_run _ _ _ _ _ Hpos).
      unfold negative_pair. apply RandFacts.bind_raise.
      apply RandFacts.random_sample2_short. simpl. lia. }
    exists ValueError. rewrite Hrun.
    repeat split; try discriminate.
Qed.

Lemma create_pairs_too_few_labels_witness :
  exists e,
    create_pairs toy_dataset [(0%Z, [0; 1])] 1 counting_rng = Raise e /\
    (forall pairs,
       create_pairs toy_dataset [(0%Z, [0; 1])] 1 counting_rng <> Ok pairs) /\
    (length (Dict.keys [(0%Z, [0; 1])]) = 0 -> e = IndexError) /\
    (length (Dict.keys [(0%Z, [0; 1])]) = 1 -> e = ValueError).
Proof.
  apply (create_pairs_too_few_labels unit toy_dataset [(0%Z, [0; 1])] 1
           counting_rng).
  - simpl. lia.
  - lia.
Defined.

(** ** The paired dataset view *)

(** C9, as amended.  The view has as many items as there are pair records.
    For every item [i] whose pair record [(idx1, idx2, label)] holds two
    positions of the base dataset, reading the item returns
    [((sampleA, sampleB), float(label))], where [sampleA] and [sampleB] are
    the samples at the positions [idx1] and [idx2] of the base dataset and
    the label is the record's mark, exact as a float up to [2^24]; two reads
    that resolve the same position, on either side, carry the same sample.
    An item whose record holds an index beyond the base dataset is not
    returned: the read raises [IndexError]. *)
Theorem paired_view_getitem (image : Type) (ds : dataset image)
  (pairs : list pair_record) :
  let self := {| ContrastiveMNISTDataset.dataset := ds;
                 ContrastiveMNISTDataset.pairs := pairs |} in
  ContrastiveMNISTDataset.__len__ self = length pairs /\
  (forall i idx1 idx2 label,
     nth_error pairs i = Some (idx1, idx2, label) ->
     idx1 < length ds -> idx2 < length ds ->
     exists sampleA labelA sampleB labelB f,
       nth_error ds idx1 = Some (sampleA, labelA) /\
       nth_error ds idx2 = Some (sampleB, labelB) /\
       ContrastiveMNISTDataset.__getitem__ self i
       = Ok ((sampleA, sampleB), f) /\
       ((Z.abs label <= 2 ^ 24)%Z ->
        f = float32_of_label label /\ f = IZR label)) /\
  (forall i j r r' a b f a' b' f',
     nth_error pairs i = Some r ->
     nth_error pairs j = Some r' ->
     ContrastiveMNISTDataset.__getitem__ self i = Ok ((a, b), f) ->
     ContrastiveMNISTDataset.__getitem__ self j = Ok ((a', b'), f') ->
     (fst (fst r) = fst (fst r') -> a = a') /\
     (fst (fst r) = snd (fst r') -> a = b') /\
     (snd (fst r) = snd (fst r') -> b = b')) /\
  (forall i idx1 idx2 label,
     nth_error pairs i = Some (idx1, idx2, label) ->
     length ds <= idx1 \/ length ds <= idx2 ->
     ContrastiveMNISTDataset.__getitem__ self i = Raise IndexError).
Proof.
  intros self.
  unfold ContrastiveMNISTDataset.__len__, ContrastiveMNISTDataset.__getitem__,
    getitem.
  simpl.
  split; [reflexivity|]. split; [|split].
  - intros i idx1 idx2 label Hi H1 H2. rewrite Hi.
    destruct (nth_error ds idx1) as [[a la]|] eqn:N1;
      [|apply nth_error_None in N1; lia].
    destruct (nth_error ds idx2) as [[b lb]|] eqn:N2;
      [|apply nth_error_None in N2; lia].
    exists a, la, b, lb, (float32_of_label label).
    repeat split; reflexivity.
  - intros i j [[i1 i2] s] [[j1 j2] s'] a b f a' b' f' Hi Hj.
    rewrite Hi, Hj. simpl.
    destruct (nth_error ds i1) as [[x lx]|] eqn:N1; [|discriminate].
    destruct (nth_error ds i2) as [[y ly]|] eqn:N2; [|discriminate].
    destruct (nth_error ds j1) as [[x' lx']|] eqn:N3; [|discriminate].
    destruct (nth_error ds j2) as [[y' ly']|] eqn:N4; [|discriminate].
    intros [= <- <- _] [= <- <- _].
    repeat split; intros E; subst; congruence.
  - intros i idx1 idx2 label Hi Hout. rewrite Hi.
    destruct (nth_error ds idx1) as [[a la]|] eqn:N1; [|reflexivity].
    destruct (nth_error ds idx2) as [[b lb]|] eqn:N2; [|reflexivity].
    assert (idx1 < length ds) by (apply nth_error_Some; congruence).
    assert (idx2 < length ds) by (apply nth_error_Some; congruence).
    lia.
Qed.

(** On a dataset whose samples tell the positions apart: item 1 of the
    records [(1, 0, 0); (3, 0, 1)] holds the samples at the positions 3 and
    0 and the label 1. *)
Lemma paired_view_getitem_witness :
  let self := {| ContrastiveMNISTDataset.dataset := numbered_dataset;
                 ContrastiveMNISTDataset.pairs :=
                   [(1, 0, 0%Z); (3, 0, 1%Z)] |} in
  ContrastiveMNISTDataset.__len__ self = 2 /\
  ContrastiveMNISTDataset.__getitem__ self 1 = Ok ((13, 10), 1%R).
Proof.
  destruct (paired_view_getitem nat numbered_dataset
              [(1, 0, 0%Z); (3, 0, 1%Z)]) as (Hlen & Hget & _).
  split; [exact Hlen|].
  destruct (Hget 1 3 0 1%Z eq_refl ltac:(simpl; lia) ltac:(simpl; lia))
    as (a & la & b & lb & f & HA & HB & Hrun & Hf).
  injection HA as <- <-. injection HB as <- <-.
  destruct (Hf ltac:(cbv; discriminate)) as [_ ->]. exact Hrun.
Defined.

(** C9 as stated fails for a pair record that names a position the base
    dataset does not have: the item is in range, and reading it raises
    [IndexError] instead of returning. *)
Lemma paired_view_index_out_of_range :
  let self := {| ContrastiveMNISTDataset.dataset := numbered_dataset;
                 ContrastiveMNISTDataset.pairs := [(9, 0, 0%Z)] |} in
  0 < ContrastiveMNISTDataset.__len__ self /\
  ContrastiveMNISTDataset.__getitem__ self 0 = Raise IndexError.
Proof.
  intros self. split; [|reflexivity].
  unfold ContrastiveMNISTDataset.__len__. simpl. lia.
Qed.

(** On the output of the sampler the view never fails: every index of a
    generated record is an index of the base dataset. *)
Lemma paired_view_of_sampler (image : Type) (ds : dataset image)
  (label_dict : Dict.t) (n : nat) (g : rng) (pairs : list pair_record)
  (i : nat) :
  organize_by_label ds = Ok label_dict ->
  create_pairs ds label_dict n g = Ok pairs ->
  i < length pairs ->
  exists item,
    ContrastiveMNISTDataset.__getitem__
      {| ContrastiveMNISTDataset.dataset := ds;
         ContrastiveMNISTDataset.pairs := pairs |} i
    = Ok item.
Proof.
  intros Horg Hcp Hi.
  destruct (organize_by_label_indexes image ds) as (d & Hd & Hix).
  rewrite Horg in Hd. injection Hd as <-.
  unfold create_pairs in Hcp.
  destruct (create_pairs_loop _ _ _ _ _) as [[pairs' g']|e] eqn:E;
    [|discriminate].
  injection Hcp as ->.
  pose proof (create_pairs_loop_consistent _ _ _ _ Hix (seq_NoDup _ _)
                _ _ _ _ _ E (Forall_nil _)) as Hall.
  destruct (nth_error pairs i) as [[[idx1 idx2] sim]|] eqn:Hnth;
    [|apply nth_error_None in Hnth; lia].
  rewrite Forall_forall in Hall.
  specialize (Hall _ (nth_error_In _ _ Hnth)). simpl in Hall.
  assert (Hlab : exists L1 L2,
             label_at ds idx1 = Some L1 /\ label_at ds idx2 = Some L2).
  { destruct Hall as [(_ & _ & _ & L & H1 & H2)
                     |(_ & _ & L1 & L2 & H1 & H2 & _)];
      eauto. }
  destruct Hlab as (L1 & L2 & H1 & H2).
  unfold ContrastiveMNISTDataset.__getitem__, getitem. simpl. rewrite Hnth.
  unfold label_at in H1, H2.
  destruct (nth_error ds idx1) as [[a ?]|]; [|discriminate].
  destruct (nth_error ds idx2) as [[b ?]|]; [|discriminate].
  eauto.
Qed.

(** ** The Siamese wrapper *)

(** C6.  [forward] on [(a, b)] is the pair of [forward_once] on [a] and on
    [b], both with the parameters held by the one [self]; so the embedding
    of an input is the same as first and as second component. *)
Theorem forward_shares_parameters
  (tensor backbone_params head_params : Type)
  (apply_feature_extractor : backbone_params -> tensor -> tensor)
  (apply_fc : head_params -> tensor -> tensor)
  (view_flat : tensor -> tensor)
  (self : SiameseNetwork.t backbone_params head_params) (a b : tensor) :
  let once :=
    SiameseNetwork.forward_once apply_feature_extractor apply_fc view_flat
      self in
  let fwd :=
    SiameseNetwork.forward apply_feature_extractor apply_fc view_flat self in
  fwd a b = (once a, once b) /\
  (forall x y z, fst (fwd x y) = snd (fwd z x)) /\
  (forall x y, fst (fwd x y) = once x /\ snd (fwd y x) = once x).
Proof.
  intros once fwd. unfold fwd, SiameseNetwork.forward. simpl. auto.
Qed.

(** ** The contrastive objective *)

Module TensorFacts.

Lemma zip_with_map {X A B C : Type} (f : A -> B -> C) (u : X -> A)
  (v : X -> B) (l : list X) :
  Tensor.zip_with f (map u l) (map v l) = map (fun x => f (u x) (v x)) l.
Proof.
  induction l as [|x l IH]; simpl; [reflexivity|]. now rewrite IH.
Qed.

(** Tensors computed row by row from one batch have one shape. *)
Lemma elementwise_map {X A B C : Type} (f : A -> B -> C) (u : X -> A)
  (v : X -> B) (l : list X) :
  Tensor.elementwise f (map u l) (map v l)
  = Ok (map (fun x => f (u x) (v x)) l).
Proof.
  unfold Tensor.elementwise. rewrite !length_map, Nat.eqb_refl.
  now rewrite zip_with_map.
Qed.

Lemma sum_nonneg (a : Tensor.t) :
  Forall (fun x => (0 <= x)%R) a -> (0 <= Tensor.sum a)%R.
Proof.
  induction 1 as [|x a Hx _ IH]; simpl; lra.
Qed.


Lemma mean_finite (a : Tensor.t) :
  a <> [] -> Tensor.mean a = Tensor.Finite (Tensor.sum a / INR (length a))%R.
Proof. destruct a; [congruence|reflexivity]. Qed.



End TensorFacts.

Section ContrastiveFacts.

Variable distance : embedding -> embedding -> R.

Lemma loss_of_batch_eq (self : ContrastiveLoss.t) (batch : list batch_row) :
  loss_of_batch distance self batch
  = Ok (batch_mean_loss distance (ContrastiveLoss.margin self) batch).
Proof.
  unfold loss_of_batch, ContrastiveLoss.forward, pairwise_distance.
  rewrite TensorFacts.elementwise_map.
  unfold Tensor.rsub, Tensor.pow2, Tensor.clamp_min.
  rewrite !map_map.
  rewrite TensorFacts.elementwise_map.
  rewrite TensorFacts.elementwise_map.
  rewrite TensorFacts.elementwise_map.
  unfold batch_mean_loss. do 2 f_equal.
  apply map_ext. intros [[vA vB] label].
  unfold pair_loss, row_output1, row_output2, row_label. simpl.
  now rewrite (Rmax_comm (ContrastiveLoss.margin self - distance vA vB) 0).
Qed.



End ContrastiveFacts.

(** *** The distance of the library on single rows *)

Lemma l2_distance_single (eps a b : R) :
  (0 <= a - b + eps)%R -> l2_distance eps [a] [b] = (a - b + eps)%R.
Proof.
  intros H. unfold l2_distance. simpl.
  rewrite Rplus_0_r, Rmult_1_r. now apply sqrt_square.
Qed.


Lemma euclidean_distance_abs (a b : R) :
  euclidean_distance [a] [b] = Rabs (a - b).
Proof.
  unfold euclidean_distance. simpl.
  rewrite Rplus_0_r, Rmult_1_r. apply sqrt_Rsqr_abs.
Qed.




(** The loss of a batch of one pair. *)
Lemma forward_single (self : ContrastiveLoss.t) (vA vB : embedding)
  (label : R) :
  ContrastiveLoss.forward torch_distance self [vA] [vB] [label]
  = Ok (batch_mean_loss torch_distance (ContrastiveLoss.margin self)
          [(vA, vB, label)]).
Proof.
  exact (loss_of_batch_eq torch_distance self [(vA, vB, label)]).
Qed.

(** C1, as amended.  For every batch of pairs of embeddings of one width
    with their labels and every margin, [ContrastiveLoss.forward] on the
    three collated tensors returns the mean over the batch of
    [(1 - label) * d^2 + label * max(0, margin - d)^2],
    where [d] is the 2-norm of [vA - vB + 1e-6], the difference of the two
    embeddings with the library's [eps] added to every coordinate. *)
Theorem contrastive_forward_formula
  (self : ContrastiveLoss.t) (batch : list batch_row) :
  (forall p, In p batch -> same_width p) ->
  ContrastiveLoss.forward torch_distance self
    (map row_output1 batch) (map row_output2 batch) (map row_label batch)
  = Ok (Tensor.mean
          (map (fun p : batch_row =>
                  let d :=
                    sqrt (Tensor.sum
                            (Tensor.zip_with
                               (fun a b => ((a - b + 1 / 1000000) ^ 2)%R)
                               (row_output1 p) (row_output2 p))) in
                  ((1 - row_label p) * d ^ 2
                   + row_label p
                     * (Rmax 0 (ContrastiveLoss.margin self - d)) ^ 2)%R)
               batch)).
Proof.
  intros _.
  pose proof (loss_of_batch_eq torch_distance self batch) as H.
  unfold loss_of_batch in H. rewrite H. unfold batch_mean_loss.
  do 2 f_equal. apply map_ext. now intros [[vA vB] label].
Qed.

Lemma contrastive_forward_formula_witness :
  ContrastiveLoss.forward torch_distance criterion
    (map row_output1 mixed_batch) (map row_output2 mixed_batch)
    (map row_label mixed_batch)
  = Ok (Tensor.mean
          (map (fun p : batch_row =>
                  let d :=
                    sqrt (Tensor.sum
                            (Tensor.zip_with
                               (fun a b => ((a - b + 1 / 1000000) ^ 2)%R)
                               (row_output1 p) (row_output2 p))) in
                  ((1 - row_label p) * d ^ 2
                   + row_label p
                     * (Rmax 0 (ContrastiveLoss.margin criterion - d)) ^ 2)%R)
               mixed_batch)).
Proof.
  apply (contrastive_forward_formula criterion mixed_batch).
  intros p [<-|[<-|[]]]; reflexivity.
Defined.

(** C1 as stated fails: for two identical embeddings with label 0 the
    formula with the Euclidean distance gives 0, and the code returns
    [eps^2], which is not 0. *)
Lemma contrastive_forward_not_euclidean :
  euclidean_distance [0%R] [0%R] = 0%R /\
  batch_mean_loss euclidean_distance (ContrastiveLoss.margin criterion)
    [([0%R], [0%R], 0%R)]
  = Tensor.Finite 0 /\
  ContrastiveLoss.forward torch_distance criterion [[0%R]] [[0%R]] [0%R]
  = Ok (Tensor.Finite (torch_eps ^ 2)) /\
  (torch_eps ^ 2 <> 0)%R.
Proof.
  assert (E : euclidean_distance [0%R] [0%R] = 0%R).
  { rewrite euclidean_distance_abs.
    replace (0 - 0)%R with 0%R by lra. apply Rabs_R0. }
  split; [exact E|]. split; [|split].
  - unfold batch_mean_loss, pair_loss. simpl. rewrite E.
    f_equal. lra.
  - rewrite forward_single.
    unfold batch_mean_loss, pair_loss, torch_distance. simpl.
    rewrite l2_distance_single by (unfold torch_eps; lra).
    do 2 f_equal. unfold torch_eps. lra.
  - unfold torch_eps. lra.
Qed.



(** The sample batch meets both zero cases, and its loss is 0. *)
Example mixed_batch_loss :
  l2_distance torch_eps [0%R] [torch_eps] = 0%R /\
  (ContrastiveLoss.margin criterion
   <= l2_distance torch_eps [3%R] [0%R])%R /\
  ContrastiveLoss.forward torch_distance criterion
    (map row_output1 mixed_batch) (map row_output2 mixed_batch)
    (map row_label mixed_batch)
  = Ok (Tensor.Finite 0).
Proof.
  assert (E0 : l2_distance torch_eps [0%R] [torch_eps] = 0%R).
  { rewrite l2_distance_single; unfold torch_eps; lra. }
  assert (E1 : l2_distance torch_eps [3%R] [0%R] = (3 + torch_eps)%R).
  { rewrite l2_distance_single; unfold torch_eps; lra. }
  split; [exact E0|]. split; [rewrite E1; unfold torch_eps; simpl; lra|].
  pose proof (loss_of_batch_eq torch_distance criterion mixed_batch) as H.
  unfold loss_of_batch in H. rewrite H. clear H.
  unfold batch_mean_loss, mixed_batch, pair_loss, torch_distance.
  cbn [map Tensor.mean Tensor.sum fold_right length ContrastiveLoss.margin
       criterion].
  rewrite E0, E1.
  rewrite (Rmax_left 0 (1 - (3 + torch_eps))) by (unfold torch_eps; lra).
  do 2 f_equal. simpl. lra.
Qed.


(** Outside the labels 0 and 1 the loss can be negative, and on the empty
    batch it is no number at all: one pair at distance [5 + eps] with label
    2 and margin 1 has the loss [-(5 + eps)^2]. *)
Lemma contrastive_loss_label_2 :
  (exists loss,
     ContrastiveLoss.forward torch_distance criterion
       [[5%R]] [[0%R]] [2%R]
     = Ok (Tensor.Finite loss) /\
     (loss < 0)%R) /\
  ContrastiveLoss.forward torch_distance criterion [] [] []
  = Ok Tensor.NaN.
Proof.
  split; [|reflexivity].
  eexists. split.
  - apply (loss_of_batch_eq torch_distance criterion
             [([5%R], [0%R], 2%R)]).
  - unfold pair_loss, torch_distance. simpl.
    rewrite l2_distance_single by (unfold torch_eps; lra).
    rewrite Rmax_left by (unfold torch_eps; lra).
    unfold torch_eps. lra.
Qed.

(** ** Comparisons of floats *)

Module FloatFacts.

Lemma ltb_irrefl (a : Float.t) : Float.ltb a a = false.
Proof.
  destruct a; simpl; try reflexivity.
  destruct (Rlt_dec r r); [lra|reflexivity].
Qed.

Lemma lt_irrefl (a : Float.t) : ~ Float.lt a a.
Proof. unfold Float.lt. rewrite ltb_irrefl. discriminate. Qed.

Lemma lt_trans (a b c : Float.t) :
  Float.lt a b -> Float.lt b c -> Float.lt a c.
Proof.
  unfold Float.lt. destruct a, b, c; simpl; try discriminate;
    try reflexivity.
  repeat destruct (Rlt_dec _ _); try discriminate; try reflexivity. lra.
Qed.

Lemma lt_dec (a b : Float.t) : Float.lt a b \/ ~ Float.lt a b.
Proof.
  unfold Float.lt. destruct (Float.ltb a b); [now left|right; discriminate].
Qed.

(** Whatever is below something is below infinity. *)
Lemma lt_pinf (a b : Float.t) : Float.lt a b -> Float.lt a Float.PInf.
Proof. unfold Float.lt. destruct a, b; simpl; auto. Qed.

(** Only a NaN and infinity itself are not below infinity. *)
Lemma not_lt_pinf (a : Float.t) :
  ~ Float.lt a Float.PInf -> a = Float.NaN \/ a = Float.PInf.
Proof.
  unfold Float.lt. destruct a; simpl; auto; intros H; now destruct H.
Qed.

Lemma nan_not_lt_pinf : ~ Float.lt Float.NaN Float.PInf.
Proof. discriminate. Qed.

(** What is not below [b] is a NaN or above everything below [b]. *)
Lemma lt_below (a b c : Float.t) :
  Float.lt c b -> ~ Float.lt a b -> a = Float.NaN \/ Float.lt c a.
Proof.
  unfold Float.lt.
  destruct a, b, c; simpl; repeat destruct (Rlt_dec _ _); intros H1 H2;
    try discriminate; try (now left); try (right; reflexivity);
    try (exfalso; apply H2; reflexivity); exfalso; lra.
Qed.

End FloatFacts.

(** ** The training loop *)

Section TrainingFacts.

Variable world : Type.
Variable snapshot : Type.
Variable train_phase : world -> world.
Variable validation_phase : world -> Float.t.
Variable scheduler_step : Float.t -> world -> world.
Variable state_dict : world -> snapshot.

Local Abbreviation one_epoch :=
  (epoch train_phase validation_phase scheduler_step state_dict).
Local Abbreviation run_epochs :=
  (epochs train_phase validation_phase scheduler_step state_dict).
Local Abbreviation state_after :=
  (after_epochs train_phase validation_phase scheduler_step state_dict).
Local Abbreviation model_in :=
  (trained_model train_phase validation_phase scheduler_step state_dict).
Local Abbreviation loss_in :=
  (val_loss train_phase validation_phase scheduler_step state_dict).
Local Abbreviation tstate := (TrainingState world snapshot).

Lemma epoch_improved (st : tstate) :
  let w' := train_phase (model st) in
  let v := validation_phase w' in
  improves v (best_val_loss st) ->
  one_epoch st = {| model := scheduler_step v w';
                best_val_loss := v;
                early_stop_counter := 0;
                checkpoint := Some (state_dict w') |}.
Proof.
  intros w' v H. unfold improves, Float.lt in H.
  unfold epoch, checkpoint_decision, below. simpl.
  fold w'. fold v. now rewrite H.
Qed.

Lemma epoch_not_improved (st : tstate) :
  let w' := train_phase (model st) in
  let v := validation_phase w' in
  ~ improves v (best_val_loss st) ->
  one_epoch st = {| model := scheduler_step v w';
                best_val_loss := best_val_loss st;
                early_stop_counter := early_stop_counter st + 1;
                checkpoint := checkpoint st |}.
Proof.
  intros w' v H. unfold improves, Float.lt in H.
  apply Bool.not_true_is_false in H.
  unfold epoch, checkpoint_decision, below. simpl.
  fold w'. fold v. now rewrite H.
Qed.

(** What one epoch does to the notebook's variables. *)
Lemma epoch_decides (k : nat) (w : world) :
  let prev := state_after k w in
  let next := state_after (S k) w in
  let v := loss_in k w in
  (improves v (best_val_loss prev) ->
     checkpoint next = Some (state_dict (model_in k w)) /\
     best_val_loss next = v /\
     early_stop_counter next = 0) /\
  (~ improves v (best_val_loss prev) ->
     checkpoint next = checkpoint prev /\
     best_val_loss next = best_val_loss prev /\
     early_stop_counter next = early_stop_counter prev + 1).
Proof.
  intros prev next v.
  change next with (one_epoch prev).
  split; intros H.
  - rewrite (epoch_improved prev H). simpl. auto.
  - rewrite (epoch_not_improved prev H). simpl. auto.
Qed.

(** The state after [N] epochs.  Either no loss so far was below infinity:
    then nothing is saved and the counter has counted every epoch.  Or the
    saved checkpoint is that of the first epoch that attains the least
    loss so far, NaN losses not counting, and the counter is its age. *)
Lemma since_improvement (w : world) (N : nat) :
  ((forall j, j < N -> ~ Float.lt (loss_in j w) Float.PInf) /\
   checkpoint (state_after N w) = None /\
   best_val_loss (state_after N w) = Float.PInf /\
   early_stop_counter (state_after N w) = N)
  \/
  (exists k,
     k < N /\
     checkpoint (state_after N w) = Some (state_dict (model_in k w)) /\
     best_val_loss (state_after N w) = loss_in k w /\
     early_stop_counter (state_after N w) = N - 1 - k /\
     Float.lt (loss_in k w) Float.PInf /\
     (forall j, j < N -> ~ Float.lt (loss_in j w) (loss_in k w)) /\
     (forall j, j < k ->
        loss_in j w = Float.NaN \/ Float.lt (loss_in k w) (loss_in j w))).
Proof.
  induction N as [|N IH].
  - left. simpl. repeat split; try reflexivity. intros j Hj. lia.
  - destruct (epoch_decides N w) as [Hyes Hno].
    destruct (FloatFacts.lt_dec (loss_in N w)
                (best_val_loss (state_after N w))) as [Himp|Himp].
    + destruct (Hyes Himp) as (Hc' & Hb' & Hz). right. exists N.
      split; [lia|]. split; [exact Hc'|]. split; [exact Hb'|].
      split; [lia|]. split; [exact (FloatFacts.lt_pinf _ _ Himp)|].
      destruct IH as [(Hnone & _ & Hb & _)
                     |(k & Hk & _ & Hb & _ & Hfin & Hmin & _)];
        rewrite Hb in Himp.
      * split; intros j Hj.
        -- destruct (Nat.eq_dec j N) as [->|Hne];
             [apply FloatFacts.lt_irrefl|].
           intros Hlt. apply (Hnone j ltac:(lia)).
           exact (FloatFacts.lt_pinf _ _ Hlt).
        -- destruct (FloatFacts.not_lt_pinf _ (Hnone j Hj)) as [E|E];
             rewrite E; [now left|now right].
      * split; intros j Hj.
        -- destruct (Nat.eq_dec j N) as [->|Hne];
             [apply FloatFacts.lt_irrefl|].
           intros Hlt. apply (Hmin j ltac:(lia)).
           exact (FloatFacts.lt_trans _ _ _ Hlt Himp).
        -- exact (FloatFacts.lt_below _ _ _ Himp (Hmin j Hj)).
    + destruct (Hno Himp) as (Hc' & Hb' & Hinc).
      destruct IH as [(Hnone & Hc & Hb & Hage)
                     |(k & Hk & Hc & Hb & Hage & Hfin & Hmin & Hfirst)];
        rewrite Hb in Himp.
      * left. rewrite Hc', Hb', Hinc, Hc, Hb, Hage.
        repeat split; try reflexivity; try lia.
        intros j Hj. destruct (Nat.eq_dec j N) as [->|Hne];
          [assumption|]. apply Hnone. lia.
      * right. exists k. rewrite Hc', Hb', Hinc, Hc, Hb, Hage.
        repeat split; try reflexivity; try assumption; try lia.
        intros j Hj. destruct (Nat.eq_dec j N) as [->|Hne];
          [assumption|]. apply Hmin. lia.
Qed.

(** Improving on the best loss so far is setting a new low. *)
Lemma improves_new_low (w : world) (N : nat) :
  improves (loss_in N w) (best_val_loss (state_after N w))
  <-> new_low (fun j => loss_in j w) N.
Proof.
  unfold improves, new_low.
  destruct (since_improvement w N)
    as [(Hnone & _ & Hb & _)|(k & Hk & _ & Hb & _ & Hfin & Hmin & _)];
    rewrite Hb.
  - split; [intros H|tauto]. split; [exact H|].
    intros i Hi.
    destruct (FloatFacts.not_lt_pinf _ (Hnone i Hi)) as [E|E];
      rewrite E; [now left|now right].
  - split.
    + intros H. split; [exact (FloatFacts.lt_pinf _ _ H)|].
      intros i Hi. exact (FloatFacts.lt_below _ _ _ H (Hmin i Hi)).
    + intros [_ H]. destruct (H k Hk) as [E|E]; [|exact E].
      rewrite E in Hfin. now destruct FloatFacts.nan_not_lt_pinf.
Qed.

(** The counter counts epochs that set no new low. *)
Lemma counter_window (w : world) (N : nat) :
  early_stop_counter (state_after N w) <= N /\
  forall j,
    N - early_stop_counter (state_after N w) <= j < N ->
    ~ new_low (fun i => loss_in i w) j.
Proof.
  induction N as [|N [IHle IH]]; [simpl; split; [lia|intros j Hj; lia]|].
  destruct (epoch_decides N w) as [Hyes Hno].
  destruct (FloatFacts.lt_dec (loss_in N w)
              (best_val_loss (state_after N w))) as [Himp|Himp].
  - destruct (Hyes Himp) as (_ & _ & ->). split; [lia|]. intros j Hj. lia.
  - destruct (Hno Himp) as (_ & _ & ->). split; [lia|]. intros j Hj.
    destruct (Nat.eq_dec j N) as [->|Hne].
    + intros Hlow. apply Himp. now apply improves_new_low.
    + apply IH. lia.
Qed.

(** After [c] epochs in a row without a new low the counter is at least
    [c]. *)
Lemma counter_lower (w : world) (c : nat) :
  forall N,
    c <= N ->
    (forall j, N - c <= j < N -> ~ new_low (fun i => loss_in i w) j) ->
    c <= early_stop_counter (state_after N w).
Proof.
  induction c as [|c IH]; intros N Hc Hflat; [lia|].
  destruct N as [|N]; [lia|].
  destruct (epoch_decides N w) as [_ Hno].
  destruct Hno as (_ & _ & ->).
  - intros Himp. apply (Hflat N ltac:(lia)). now apply improves_new_low.
  - specialize (IH N ltac:(lia)).
    assert (c <= early_stop_counter (state_after N w)); [|lia].
    apply IH. intros j Hj. apply Hflat. lia.
Qed.

Lemma counter_step (w : world) (N : nat) :
  early_stop_counter (state_after (S N) w)
  <= early_stop_counter (state_after N w) + 1.
Proof.
  destruct (epoch_decides N w) as [Hyes Hno].
  destruct (FloatFacts.lt_dec (loss_in N w)
              (best_val_loss (state_after N w))) as [Himp|Himp].
  - destruct (Hyes Himp) as (_ & _ & ->). lia.
  - destruct (Hno Himp) as (_ & _ & ->). lia.
Qed.

Lemma state_after_iter (w : world) (k : nat) :
  state_after k w = Nat.iter k one_epoch (@initial world snapshot w).
Proof.
  induction k as [|k IH]; simpl; [reflexivity|]. now rewrite IH.
Qed.

(** The [for] loop with its [break]. *)
Lemma epochs_iter (n : nat) :
  forall st0 : tstate,
    let r := run_epochs n st0 in
    snd r <= n /\
    (1 <= n -> 1 <= snd r) /\
    fst r = Nat.iter (snd r) one_epoch st0 /\
    (forall e, 1 <= e < snd r ->
       early_stop (Nat.iter e one_epoch st0) = false) /\
    (snd r < n -> early_stop (Nat.iter (snd r) one_epoch st0) = true).
Proof.
  induction n as [|n IH]; intros st0; simpl.
  - repeat split; lia.
  - destruct (early_stop (one_epoch st0)) eqn:E; simpl.
    + repeat split; try lia. intros _. exact E.
    + specialize (IH (one_epoch st0)). cbv zeta in IH.
      destruct (run_epochs n (one_epoch st0)) as [st'' k].
      cbn [fst snd] in *.
      destruct IH as (Hle & _ & Hst & Hno & Hstop).
      split; [lia|]. split; [lia|]. split; [|split].
      * rewrite Nat.iter_succ_r. exact Hst.
      * intros e He. destruct e as [|[|e]]; [lia|exact E|].
        rewrite Nat.iter_succ_r. apply Hno. lia.
      * intros Hlt. rewrite Nat.iter_succ_r. apply Hstop. lia.
Qed.

(** The loop and the unstopped iteration. *)
Lemma loop_runs (n : nat) (w : world) :
  let N := snd (run_epochs n (@initial world snapshot w)) in
  N <= n /\
  (1 <= n -> 1 <= N) /\
  fst (run_epochs n (@initial world snapshot w)) = state_after N w /\
  (forall e, e < N -> early_stop_counter (state_after e w) < patience) /\
  (N < n -> patience <= early_stop_counter (state_after N w)).
Proof.
  intros N.
  destruct (epochs_iter n (@initial world snapshot w))
    as (Hle & Hpos & Hst & Hno & Hstop).
  fold N in Hle, Hpos, Hst, Hno, Hstop.
  repeat split; try assumption.
  - now rewrite state_after_iter.
  - intros e He. destruct e as [|e]; [unfold patience; simpl; lia|].
    specialize (Hno (S e) ltac:(lia)).
    rewrite <- state_after_iter in Hno.
    unfold early_stop in Hno. now apply Nat.leb_gt in Hno.
  - intros HN. specialize (Hstop HN).
    rewrite <- state_after_iter in Hstop.
    unfold early_stop in Hstop. now apply Nat.leb_le in Hstop.
Qed.

End TrainingFacts.

(** C4.  In every epoch the loop runs, a validation loss strictly below the
    best seen so far saves the model of that epoch as the checkpoint,
    records the loss as the new best and resets the early-stop counter to 0;
    any other loss leaves checkpoint and best untouched and adds 1 to the
    counter.  Hence after [N] completed epochs: when no loss so far was
    below infinity (each was a NaN or infinity), nothing has been saved;
    otherwise the checkpoint is the model of the first epoch that attains
    the least validation loss among the first [N], losses that are NaN not
    counting. *)
Theorem checkpoint_tracks_best (world snapshot : Type)
  (train_phase : world -> world) (validation_phase : world -> Float.t)
  (scheduler_step : Float.t -> world -> world)
  (state_dict : world -> snapshot) (w : world) (n : nat) :
  1 <= n ->
  let after :=
    after_epochs train_phase validation_phase scheduler_step state_dict in
  let loss k :=
    val_loss train_phase validation_phase scheduler_step state_dict k w in
  let saved k :=
    state_dict
      (trained_model train_phase validation_phase scheduler_step state_dict
         k w) in
  let run :=
    epochs train_phase validation_phase scheduler_step state_dict n
      (@initial world snapshot w) in
  1 <= snd run <= n /\
  fst run = after (snd run) w /\
  (forall e, e < snd run ->
     (improves (loss e) (best_val_loss (after e w)) ->
        checkpoint (after (S e) w) = Some (saved e) /\
        best_val_loss (after (S e) w) = loss e /\
        early_stop_counter (after (S e) w) = 0) /\
     (~ improves (loss e) (best_val_loss (after e w)) ->
        checkpoint (after (S e) w) = checkpoint (after e w) /\
        best_val_loss (after (S e) w) = best_val_loss (after e w) /\
        early_stop_counter (after (S e) w)
        = early_stop_counter (after e w) + 1)) /\
  (forall N, 1 <= N <= snd run ->
     ((forall j, j < N -> ~ Float.lt (loss j) Float.PInf) /\
      checkpoint (after N w) = None /\
      best_val_loss (after N w) = Float.PInf)
     \/
     (exists k,
        k < N /\
        checkpoint (after N w) = Some (saved k) /\
        best_val_loss (after N w) = loss k /\
        Float.lt (loss k) Float.PInf /\
        (forall j, j < N -> ~ Float.lt (loss j) (loss k)) /\
        (forall j, j < k ->
           loss j = Float.NaN \/ Float.lt (loss k) (loss j)))).
Proof.
  intros Hn after loss saved run.
  destruct (loop_runs world snapshot train_phase validation_phase
              scheduler_step state_dict n w)
    as (Hle & Hpos & Hst & _ & _).
  fold run in Hle, Hpos, Hst.
  split; [split; [now apply Hpos|exact Hle]|]. split; [|split].
  - exact Hst.
  - intros e _.
    apply (epoch_decides world snapshot train_phase validation_phase
             scheduler_step state_dict e w).
  - intros N _.
    destruct (since_improvement world snapshot train_phase validation_phase
                scheduler_step state_dict w N)
      as [(Hnone & Hc & Hb & _)
         |(k & Hk & Hc & Hb & _ & Hfin & Hmin & Hfirst)].
    + left. auto.
    + right. exists k. auto 7.
Qed.

Lemma checkpoint_tracks_best_witness :
  let phase (w : nat) := Float.Fin (INR w) in
  let after :=
    after_epochs S phase (fun _ (w : nat) => w) (fun w : nat => w) in
  let loss k :=
    val_loss S phase (fun _ (w : nat) => w) (fun w : nat => w) k 0 in
  let saved k :=
    trained_model S phase (fun _ (w : nat) => w) (fun w : nat => w) k 0 in
  let run :=
    epochs S phase (fun _ (w : nat) => w) (fun w : nat => w) 3
      (@initial nat nat 0) in
  1 <= snd run <= 3 /\
  fst run = after (snd run) 0 /\
  (forall e, e < snd run ->
     (improves (loss e) (best_val_loss (after e 0)) ->
        checkpoint (after (S e) 0) = Some (saved e) /\
        best_val_loss (after (S e) 0) = loss e /\
        early_stop_counter (after (S e) 0) = 0) /\
     (~ improves (loss e) (best_val_loss (after e 0)) ->
        checkpoint (after (S e) 0) = checkpoint (after e 0) /\
        best_val_loss (after (S e) 0) = best_val_loss (after e 0) /\
        early_stop_counter (after (S e) 0)
        = early_stop_counter (after e 0) + 1)) /\
  (forall N, 1 <= N <= snd run ->
     ((forall j, j < N -> ~ Float.lt (loss j) Float.PInf) /\
      checkpoint (after N 0) = None /\
      best_val_loss (after N 0) = Float.PInf)
     \/
     (exists k,
        k < N /\
        checkpoint (after N 0) = Some (saved k) /\
        best_val_loss (after N 0) = loss k /\
        Float.lt (loss k) Float.PInf /\
        (forall j, j < N -> ~ Float.lt (loss j) (loss k)) /\
        (forall j, j < k ->
           loss j = Float.NaN \/ Float.lt (loss k) (loss j)))).
Proof.
  apply (checkpoint_tracks_best nat nat S (fun w => Float.Fin (INR w))
           (fun _ w => w) (fun w => w) 0 3).
  lia.
Defined.

(** With a validation loss that is a NaN, or infinite, in every epoch the
    test [avg_val_loss < best_val_loss] never holds: after the first epoch,
    and at the end of the run, no checkpoint has been saved, although these
    epochs have the lowest validation loss observed. *)
Lemma checkpoint_missing_without_finite_loss :
  checkpoint
    (after_epochs (fun w : unit => w) (fun _ => Float.NaN) (fun _ w => w)
       (fun w : unit => w) 1 tt) = None /\
  checkpoint (fst nan_training_loop) = None /\
  snd nan_training_loop = 10 /\
  checkpoint
    (after_epochs (fun w : unit => w) (fun _ => Float.PInf) (fun _ w => w)
       (fun w : unit => w) 1 tt) = None.
Proof. repeat split; reflexivity. Qed.

(** C5.  The loop runs at least one and at most 50 epochs; the early-stop
    counter stays below the patience 10 at the end of every epoch before the
    last one; when the loop ends before epoch 50, the counter is exactly 10
    at the end of its last epoch and the ten epochs before that end set no
    new low of the validation loss; the loop is over by the end of the first
    epoch that leaves the counter at 10 or more; and ten epochs in a row
    without a new low always end it: the loop does not run past the tenth
    of them. *)
Theorem training_loop_stops (world snapshot : Type)
  (train_phase : world -> world) (validation_phase : world -> Float.t)
  (scheduler_step : Float.t -> world -> world)
  (state_dict : world -> snapshot) (w : world) :
  let after :=
    after_epochs train_phase validation_phase scheduler_step state_dict in
  let loss k :=
    val_loss train_phase validation_phase scheduler_step state_dict k w in
  let run :=
    training_loop train_phase validation_phase scheduler_step state_dict w in
  let N := snd run in
  1 <= N <= 50 /\
  fst run = after N w /\
  (forall e, e < N -> early_stop_counter (after e w) < 10) /\
  (N < 50 ->
     early_stop_counter (after N w) = 10 /\
     forall j, N - 10 <= j < N -> ~ new_low loss j) /\
  (forall e, e <= 50 -> 10 <= early_stop_counter (after e w) -> N <= e) /\
  (forall e, 10 <= e <= 50 ->
     (forall j, e - 10 <= j < e -> ~ new_low loss j) -> N <= e).
Proof.
  intros after loss run N.
  destruct (loop_runs world snapshot train_phase validation_phase
              scheduler_step state_dict num_epochs w)
    as (Hle & Hpos & Hst & Hbelow & Hstop).
  fold (training_loop train_phase validation_phase scheduler_step state_dict w)
    in Hle, Hpos, Hst, Hbelow, Hstop.
  fold run in Hle, Hpos, Hst, Hbelow, Hstop.
  fold N in Hle, Hpos, Hst, Hbelow, Hstop.
  fold after in Hst, Hbelow, Hstop.
  unfold num_epochs, patience in *.
  assert (Hfirst : forall e, 10 <= early_stop_counter (after e w) -> N <= e).
  { intros e Hc.
    destruct (Nat.le_gt_cases N e) as [|Hlt]; [assumption|].
    specialize (Hbelow e Hlt). lia. }
  split; [split; [apply Hpos; lia|exact Hle]|].
  split; [exact Hst|]. split; [exact Hbelow|]. split; [|split].
  - intros HN. specialize (Hstop HN).
    assert (HN1 : 1 <= N) by (apply Hpos; lia).
    assert (Hten : early_stop_counter (after N w) = 10).
    { destruct N as [|N']; [lia|].
      pose proof (Hbelow N' ltac:(lia)) as Hprev.
      pose proof (counter_step world snapshot train_phase validation_phase
             scheduler_step state_dict w N') as Hstep.
      fold after in Hstep. lia. }
    split; [exact Hten|].
    intros j Hj.
    destruct (counter_window world snapshot train_phase validation_phase
             scheduler_step state_dict w N) as [_ Hwin].
    fold after in Hwin. rewrite Hten in Hwin. now apply Hwin.
  - intros e _. apply Hfirst.
  - intros e He Hflat. apply Hfirst.
    apply (counter_lower world snapshot train_phase validation_phase
             scheduler_step state_dict w 10 e); [lia|exact Hflat].
Qed.

(** *** A run that stops early

    With a validation loss that never improves after the first epoch, the
    counter reaches 10 at the end of epoch 11 and the loop stops there. *)

Lemma flat_epoch (c : nat) :
  epoch (fun w : unit => w) (fun _ => Float.Fin 0) (fun _ w => w)
    (fun w : unit => w) (flat_state c)
  = flat_state (c + 1).
Proof.
  rewrite epoch_not_improved; [reflexivity|]. simpl.
  apply FloatFacts.lt_irrefl.
Qed.

Lemma flat_first_epoch :
  epoch (fun w : unit => w) (fun _ => Float.Fin 0) (fun _ w => w)
    (fun w : unit => w) (@initial unit unit tt)
  = flat_state 0.
Proof.
  rewrite epoch_improved; reflexivity.
Qed.

Lemma flat_epochs (n : nat) :
  forall c, c < 10 ->
    epochs (fun w : unit => w) (fun _ => Float.Fin 0) (fun _ w => w)
      (fun w : unit => w) n (flat_state c)
    = (flat_state (c + Nat.min n (10 - c)), Nat.min n (10 - c)).
Proof.
  induction n as [|n IH]; intros c Hc.
  - simpl. now rewrite Nat.add_0_r.
  - cbn [epochs]. rewrite flat_epoch.
    unfold early_stop, patience. cbn [early_stop_counter flat_state].
    destruct (Nat.leb_spec 10 (c + 1)) as [Hstop|Hgo].
    + replace (Nat.min (S n) (10 - c)) with 1 by lia. reflexivity.
    + rewrite IH by lia.
      replace (Nat.min (S n) (10 - c)) with (S (Nat.min n (10 - (c + 1))))
        by lia.
      f_equal. f_equal. lia.
Qed.

Lemma epochs_succ (world snapshot : Type)
  (train_phase : world -> world) (validation_phase : world -> Float.t)
  (scheduler_step : Float.t -> world -> world)
  (state_dict : world -> snapshot)
  (n : nat) (st : TrainingState world snapshot) :
  epochs train_phase validation_phase scheduler_step state_dict (S n) st
  = let st' := epoch train_phase validation_phase scheduler_step state_dict st
    in
    if early_stop st' then (st', 1)
    else let (st'', k) :=
           epochs train_phase validation_phase scheduler_step state_dict n st'
         in (st'', S k).
Proof. reflexivity. Qed.

Example flat_run_stops_at_11 :
  flat_training_loop = (flat_state 10, 11).
Proof.
  unfold flat_training_loop, training_loop, num_epochs.
  rewrite (epochs_succ _ _ _ _ _ _ 49). cbv zeta. rewrite flat_first_epoch.
  unfold early_stop, patience. cbn [early_stop_counter flat_state Nat.leb].
  rewrite flat_epochs by lia. reflexivity.
Qed.

(** *** Sample runs of the sampler *)

Example create_pairs_toy :
  create_pairs toy_dataset toy_label_dict 2 counting_rng
  = Ok [(1, 0, 0%Z); (3, 0, 1%Z); (2, 3, 0%Z); (0, 3, 1%Z)].
Proof. reflexivity. Qed.

(** A label with a single member yields no positive record when chosen. *)
Example create_pairs_skips_positive :
  create_pairs toy_dataset [(0%Z, [0]); (1%Z, [2; 3])] 3 counting_rng
  = Ok [(3, 0, 1%Z); (2, 3, 0%Z); (0, 3, 1%Z); (3, 0, 1%Z)].
Proof. reflexivity. Qed.

(** * Further properties of the data pipeline *)

(** ** The order of the keys and the growth of the index *)

Section LabelIndexOrder.

Variable image : Type.

Lemma existsb_keys (d : Dict.t) (k : Z) :
  existsb (Z.eqb k) (Dict.keys d) = Dict.contains d k.
Proof.
  unfold Dict.contains, Dict.keys.
  induction d as [|[k' v'] d IH]; simpl; [reflexivity|].
  destruct (Z.eqb k k'); [reflexivity|exact IH].
Qed.

Lemma set_absent (d : Dict.t) (k : Z) (v : list nat) :
  Dict.get d k = None -> Dict.set d k v = d ++ [(k, v)].
Proof.
  induction d as [|[k' v'] d IH]; simpl; [reflexivity|].
  destruct (Z.eqb k k'); [discriminate|]. intros H. now rewrite IH.
Qed.

Lemma set_last (d : Dict.t) (k : Z) (v w : list nat) :
  Dict.get d k = None -> Dict.set (d ++ [(k, v)]) k w = d ++ [(k, w)].
Proof.
  induction d as [|[k' v'] d IH]; simpl.
  - now rewrite Z.eqb_refl.
  - destruct (Z.eqb k k'); [discriminate|]. intros H. now rewrite IH.
Qed.

(** One step of the scan, in closed form. *)
Lemma organize_step_closed (ds : dataset image) (d : Dict.t) (idx : nat)
  (img : image) (l : Z) :
  nth_error ds idx = Some (img, l) ->
  organize_step ds d idx
  = Ok (match Dict.get d l with
        | Some b => Dict.set d l (b ++ [idx])
        | None => d ++ [(l, [idx])]
        end).
Proof.
  intros Hnth. unfold organize_step, getitem. rewrite Hnth.
  unfold Dict.contains, Dict.append.
  destruct (Dict.get d l) as [b|] eqn:Hget; simpl.
  - now rewrite Hget.
  - rewrite DictFacts.get_set_same. simpl.
    rewrite (set_absent d l [] Hget). now rewrite (set_last d l [] [idx] Hget).
Qed.

Lemma organize_step_keys (ds : dataset image) (d d' : Dict.t) (idx : nat)
  (l : Z) :
  label_at ds idx = Some l ->
  organize_step ds d idx = Ok d' ->
  Dict.keys d'
  = if existsb (Z.eqb l) (Dict.keys d) then Dict.keys d
    else Dict.keys d ++ [l].
Proof.
  unfold label_at. intros Hl.
  destruct (nth_error ds idx) as [[img l0]|] eqn:Hnth; [|discriminate].
  injection Hl as ->.
  rewrite (organize_step_closed ds d idx img l Hnth). intros [= <-].
  rewrite existsb_keys. unfold Dict.contains.
  destruct (Dict.get d l) as [b|] eqn:Hget.
  - apply (DictFacts.keys_set_present _ _ _ _ Hget).
  - unfold Dict.keys. now rewrite map_app.
Qed.

Lemma organize_loop_keys (ds : dataset image) (idxs : list nat) :
  forall d d',
    organize_loop ds idxs d = Ok d' ->
    Dict.keys d'
    = Dict.keys d ++ first_seen (Dict.keys d) (labels_of ds idxs).
Proof.
  induction idxs as [|idx rest IH]; intros d d'; simpl.
  - intros [= <-]. now rewrite app_nil_r.
  - destruct (organize_step ds d idx) as [d1|e] eqn:Hstep; [|discriminate].
    intros Hloop. rewrite (IH d1 d' Hloop).
    assert (Hl : exists l, label_at ds idx = Some l).
    { unfold organize_step, getitem, label_at in *.
      destruct (nth_error ds idx) as [[img l]|]; [|discriminate].
      now exists l. }
    destruct Hl as (l & Hl). rewrite Hl. simpl.
    rewrite (organize_step_keys ds d d1 idx l Hl Hstep).
    destruct (existsb (Z.eqb l) (Dict.keys d)); [reflexivity|].
    now rewrite <- app_assoc.
Qed.

Lemma labels_of_all (before ds : dataset image) :
  labels_of (before ++ ds) (seq (length before) (length ds)) = map snd ds.
Proof.
  revert before. induction ds as [|[img l] ds IH]; intros before;
    [reflexivity|].
  simpl. unfold label_at.
  rewrite nth_error_app2, Nat.sub_diag by lia. simpl. f_equal.
  specialize (IH (before ++ [(img, l)])).
  rewrite <- app_assoc, length_app, Nat.add_1_r in IH. exact IH.
Qed.

Lemma organize_loop_app (ds : dataset image) (a b : list nat) :
  forall d,
    organize_loop ds (a ++ b) d
    = match organize_loop ds a d with
      | Ok d1 => organize_loop ds b d1
      | Raise e => Raise e
      end.
Proof.
  induction a as [|idx a IH]; intros d; simpl; [reflexivity|].
  destruct (organize_step ds d idx); [apply IH|reflexivity].
Qed.

Lemma organize_loop_ext (ds ds' : dataset image) (idxs : list nat) :
  (forall i, In i idxs -> nth_error ds i = nth_error ds' i) ->
  forall d, organize_loop ds idxs d = organize_loop ds' idxs d.
Proof.
  induction idxs as [|idx rest IH]; intros Hext d; simpl; [reflexivity|].
  assert (Hstep : organize_step ds d idx = organize_step ds' d idx).
  { unfold organize_step, getitem. now rewrite (Hext idx (or_introl eq_refl)). }
  rewrite Hstep. destruct (organize_step ds' d idx); [|reflexivity].
  apply IH. intros i Hi. apply Hext. now right.
Qed.

(** X1.  The keys of the dictionary that [organize_by_label] returns, in the
    order [list(label_dict.keys())] lists them, are the labels of the dataset
    in the order of their first occurrence, each label once; the empty
    dataset gives the empty dictionary. *)
Theorem organize_by_label_key_order (ds : dataset image) :
  exists label_dict,
    organize_by_label ds = Ok label_dict /\
    Dict.keys label_dict = first_seen [] (map snd ds) /\
    (ds = [] -> label_dict = []).
Proof.
  destruct (organize_by_label_indexes image ds) as (d & Hd & _).
  exists d. split; [exact Hd|]. split.
  - unfold organize_by_label in Hd.
    rewrite (organize_loop_keys ds _ [] d Hd). simpl.
    pose proof (labels_of_all [] ds) as Hall. simpl in Hall.
    now rewrite Hall.
  - intros ->. unfold organize_by_label in Hd. simpl in Hd. congruence.
Qed.

(** X2.  Indexing a dataset with one more sample at its end changes the
    index of the shorter dataset in one place: the new position joins the
    end of the bucket of its label, or, for a label not seen before, a new
    bucket holding just that position is added after all others. *)
Theorem organize_by_label_snoc (ds : dataset image) (img : image) (l : Z)
  (label_dict : Dict.t) :
  organize_by_label ds = Ok label_dict ->
  organize_by_label (ds ++ [(img, l)])
  = Ok (match Dict.get label_dict l with
        | Some b => Dict.set label_dict l (b ++ [length ds])
        | None => label_dict ++ [(l, [length ds])]
        end).
Proof.
  intros Hd. unfold organize_by_label in *.
  rewrite length_app. simpl length. rewrite Nat.add_1_r, seq_S. simpl.
  rewrite organize_loop_app.
  rewrite <- (organize_loop_ext ds (ds ++ [(img, l)])).
  - rewrite Hd. simpl.
    rewrite (organize_step_closed _ label_dict (length ds) img l);
      [reflexivity|].
    now rewrite nth_error_app2, Nat.sub_diag by lia.
  - intros i Hi. apply in_seq in Hi. now rewrite nth_error_app1 by lia.
Qed.

End LabelIndexOrder.

Lemma organize_by_label_snoc_witness :
  organize_by_label (toy_dataset ++ [(tt, 7%Z)])
  = Ok (match Dict.get toy_label_dict 7%Z with
        | Some b => Dict.set toy_label_dict 7%Z (b ++ [length toy_dataset])
        | None => toy_label_dict ++ [(7%Z, [length toy_dataset])]
        end).
Proof.
  apply (organize_by_label_snoc unit toy_dataset tt 7%Z toy_label_dict).
  reflexivity.
Defined.

(** ** When the sampler succeeds, and how much it returns *)

Lemma indexes_full (image : Type) (ds : dataset image) (done : list nat)
  (d : Dict.t) :
  indexes ds done d -> Forall (fun kv => snd kv <> []) d.
Proof.
  intros Hix. apply Forall_forall. intros [k v] Hin. simpl.
  apply (ix_nonempty Hix k).
  apply DictFacts.in_get; [apply (ix_nodup Hix)|assumption].
Qed.

Lemma few_labels_raise (image : Type) (ds : dataset image) (d : Dict.t)
  (N : nat) (g : rng) :
  length (Dict.keys d) < 2 ->
  exists e, create_pairs ds d (S N) g = Raise e.
Proof.
  intros Hfew.
  destruct d as [|[L b] [|kv rest]]; simpl in Hfew; [| |lia].
  - now exists IndexError.
  - destruct (positive_pair_total [(L, b)] (Dict.keys [(L, b)]) [] g)
      as (p1 & g1 & Hpos).
    + discriminate.
    + intros L' [<-|[]]. exists b. simpl. now rewrite Z.eqb_refl.
    + exists ValueError.
      unfold create_pairs. simpl create_pairs_loop. unfold iteration.
      rewrite (RandFacts.bind_raise _ _ _ ValueError); [reflexivity|].
      rewrite (RandFacts.bind_run _ _ _ _ _ Hpos).
      unfold negative_pair. apply RandFacts.bind_raise.
      apply RandFacts.random_sample2_short. simpl. lia.
Qed.

(** X3.  On the index that [organize_by_label] builds from a dataset,
    [create_pairs] returns a list exactly when no pair is requested or the
    dataset has at least two different labels; in every other case it
    raises. *)
Theorem create_pairs_succeeds_iff (image : Type) (ds : dataset image)
  (label_dict : Dict.t) (N : nat) (g : rng) :
  organize_by_label ds = Ok label_dict ->
  (exists pairs, create_pairs ds label_dict N g = Ok pairs) <->
  (N = 0 \/ 2 <= length (Dict.keys label_dict)).
Proof.
  intros Horg.
  destruct (organize_by_label_indexes image ds) as (d & Hd & Hix).
  rewrite Horg in Hd. injection Hd as <-.
  split.
  - intros (pairs & Hrun).
    destruct N as [|N]; [now left|]. right.
    destruct (Nat.lt_ge_cases (length (Dict.keys label_dict)) 2)
      as [Hfew|Hok]; [|exact Hok].
    destruct (few_labels_raise image ds label_dict N g Hfew) as (e & He).
    congruence.
  - intros [->|Htwo].
    + now exists [].
    + destruct (create_pairs_loop_logged label_dict Htwo
                  (indexes_full image ds _ _ Hix) N [] g)
        as (log & g' & _ & _ & Hrun & _).
      eexists. unfold create_pairs. now rewrite Hrun.
Qed.

Lemma create_pairs_succeeds_iff_witness :
  (exists pairs,
     create_pairs toy_dataset toy_label_dict 2 counting_rng = Ok pairs) <->
  (2 = 0 \/ 2 <= length (Dict.keys toy_label_dict)).
Proof.
  apply (create_pairs_succeeds_iff unit toy_dataset toy_label_dict 2
           counting_rng).
  reflexivity.
Defined.

Section SamplerSizes.

Variable label_dict : Dict.t.

Lemma bucket_of_chosen (P : list nat -> Prop) (it : iter_log) :
  Forall (fun kv => P (snd kv)) label_dict ->
  iteration_shape label_dict it ->
  exists b,
    P b /\
    ((2 <= length b /\
      exists i j a c, appended it = [(i, j, 0%Z); (a, c, 1%Z)]) \/
     (length b < 2 /\ exists a c, appended it = [(a, c, 1%Z)])).
Proof.
  intros Hall (b & Hget & Hshape). exists b. split; [|exact Hshape].
  apply DictFacts.get_in in Hget. rewrite Forall_forall in Hall.
  apply (Hall _ Hget).
Qed.

Lemma alternating_log (log : list iter_log) :
  Forall (fun it => exists i j a c,
            appended it = [(i, j, 0%Z); (a, c, 1%Z)]) log ->
  length (concat (map appended log)) = 2 * length log /\
  forall k, k < length log ->
    (exists i j,
       nth_error (concat (map appended log)) (2 * k) = Some (i, j, 0%Z)) /\
    (exists a c,
       nth_error (concat (map appended log)) (2 * k + 1) = Some (a, c, 1%Z)).
Proof.
  induction 1 as [|it log (i & j & a & c & Hit) _ [IHlen IH]].
  - split; [reflexivity|]. intros k Hk. simpl in Hk. lia.
  - change (concat (map appended (it :: log)))
      with (appended it ++ concat (map appended log)).
    rewrite Hit. split.
    + rewrite length_app, IHlen. simpl length. lia.
    + intros [|k] Hk.
      * split; [exists i, j|exists a, c]; reflexivity.
      * replace (2 * S k + 1) with (S (S (2 * k + 1))) by lia.
        replace (2 * S k) with (S (S (2 * k))) by lia.
        cbn [nth_error app]. apply IH. simpl in Hk. lia.
Qed.

Lemma negative_only_log (log : list iter_log) :
  Forall (fun it => exists a c, appended it = [(a, c, 1%Z)]) log ->
  length (concat (map appended log)) = length log /\
  Forall (fun r => is_negative r = true) (concat (map appended log)).
Proof.
  induction 1 as [|it log (a & c & Hit) _ [IHlen IH]]; simpl.
  - split; [reflexivity|constructor].
  - rewrite Hit. simpl. split; [lia|]. now constructor.
Qed.

End SamplerSizes.

(** X4.  When [label_dict] has at least two labels and every bucket has at
    least two members (as for MNIST), [create_pairs] returns exactly
    [2 * N] records, and they alternate: the record at position [2k] is
    marked 0 and the record at position [2k + 1] is marked 1. *)
Theorem create_pairs_full_buckets (image : Type) (ds : dataset image)
  (label_dict : Dict.t) (N : nat) (g : rng) :
  2 <= length (Dict.keys label_dict) ->
  Forall (fun kv => 2 <= length (snd kv)) label_dict ->
  exists pairs,
    create_pairs ds label_dict N g = Ok pairs /\
    length pairs = 2 * N /\
    forall k, k < N ->
      (exists i j, nth_error pairs (2 * k) = Some (i, j, 0%Z)) /\
      (exists a c, nth_error pairs (2 * k + 1) = Some (a, c, 1%Z)).
Proof.
  intros Htwo Hbig.
  assert (Hfull : Forall (fun kv => snd kv <> []) label_dict).
  { eapply Forall_impl; [|exact Hbig]. intros [k v] Hv. simpl in *.
    intros ->. simpl in Hv. lia. }
  destruct (create_pairs_loop_logged label_dict Htwo Hfull N [] g)
    as (log & g' & Hlen & _ & Hrun & Hall).
  assert (Hpairs : Forall (fun it => exists i j a c,
                             appended it = [(i, j, 0%Z); (a, c, 1%Z)]) log).
  { eapply Forall_impl; [|exact Hall]. intros it Hit.
    destruct (bucket_of_chosen label_dict (fun b => 2 <= length b) it
                Hbig Hit) as (b & Hb & [(_ & H)|(Hlt & _)]);
      [exact H|lia]. }
  destruct (alternating_log log Hpairs) as [Hl Halt].
  exists (concat (map appended log)).
  unfold create_pairs. rewrite Hrun. simpl.
  rewrite Hlen in *. auto.
Qed.

Lemma create_pairs_full_buckets_witness :
  exists pairs,
    create_pairs toy_dataset toy_label_dict 2 counting_rng = Ok pairs /\
    length pairs = 2 * 2 /\
    forall k, k < 2 ->
      (exists i j, nth_error pairs (2 * k) = Some (i, j, 0%Z)) /\
      (exists a c, nth_error pairs (2 * k + 1) = Some (a, c, 1%Z)).
Proof.
  apply (create_pairs_full_buckets unit toy_dataset toy_label_dict 2
           counting_rng).
  - simpl. lia.
  - repeat constructor.
Defined.

(** X5.  When [label_dict] has at least two labels and every bucket has a
    single member, no positive record can be formed: [create_pairs] returns
    exactly [N] records, all marked 1. *)
Theorem create_pairs_single_member_buckets (image : Type) (ds : dataset image)
  (label_dict : Dict.t) (N : nat) (g : rng) :
  2 <= length (Dict.keys label_dict) ->
  Forall (fun kv => length (snd kv) = 1) label_dict ->
  exists pairs,
    create_pairs ds label_dict N g = Ok pairs /\
    length pairs = N /\
    Forall (fun r => snd r = 1%Z) pairs.
Proof.
  intros Htwo Hone.
  assert (Hfull : Forall (fun kv => snd kv <> []) label_dict).
  { eapply Forall_impl; [|exact Hone]. intros [k v] Hv. simpl in *.
    intros ->. discriminate. }
  destruct (create_pairs_loop_logged label_dict Htwo Hfull N [] g)
    as (log & g' & Hlen & _ & Hrun & Hall).
  assert (Hneg : Forall (fun it => exists a c,
                           appended it = [(a, c, 1%Z)]) log).
  { eapply Forall_impl; [|exact Hall]. intros it Hit.
    destruct (bucket_of_chosen label_dict (fun b => length b = 1) it
                Hone Hit) as (b & Hb & [(Hge & _)|(_ & H)]);
      [lia|exact H]. }
  destruct (negative_only_log log Hneg) as [Hl Hallneg].
  exists (concat (map appended log)).
  unfold create_pairs. rewrite Hrun. simpl.
  rewrite Hlen in *. split; [reflexivity|]. split; [exact Hl|].
  eapply Forall_impl; [|exact Hallneg]. intros r Hr.
  unfold is_negative in Hr. now apply Z.eqb_eq in Hr.
Qed.

Lemma create_pairs_single_member_buckets_witness :
  exists pairs,
    create_pairs toy_dataset [(0%Z, [0]); (1%Z, [2])] 3 counting_rng
    = Ok pairs /\
    length pairs = 3 /\
    Forall (fun r => snd r = 1%Z) pairs.
Proof.
  apply (create_pairs_single_member_buckets unit toy_dataset
           [(0%Z, [0]); (1%Z, [2])] 3 counting_rng).
  - simpl. lia.
  - repeat constructor.
Defined.

(** ** Asking for more pairs with the same random stream *)

Section SamplerPrefix.

Variable label_dict : Dict.t.
Variable labels : list Z.

Lemma iteration_extends (pairs pairs' : list pair_record) (g g' : rng) :
  iteration label_dict labels pairs g = Ok (pairs', g') ->
  exists more, pairs' = pairs ++ more.
Proof.
  unfold iteration. intros H. rand_inv H.
  apply positive_pair_inv in E.
  apply negative_pair_inv in H.
  destruct H as (L1 & L2 & b1 & b2 & x & y & p & q
                 & _ & _ & _ & _ & _ & _ & _ & ->).
  destruct E as (L & b & g1 & _ & _ & [(_ & i & j & _ & _ & _ & _ & _ & ->)
                                      | (_ & -> & _)]).
  - exists [(i, j, 0%Z); (x, y, 1%Z)]. now rewrite <- app_assoc.
  - now exists [(x, y, 1%Z)].
Qed.

Lemma create_pairs_loop_extends (n : nat) :
  forall (pairs pairs' : list pair_record) (g g' : rng),
    create_pairs_loop label_dict labels n pairs g = Ok (pairs', g') ->
    exists more, pairs' = pairs ++ more.
Proof.
  induction n as [|n IH]; simpl; intros pairs pairs' g g' H.
  - injection H as <- _. exists []. now rewrite app_nil_r.
  - rand_inv H. apply iteration_extends in E. destruct E as (m1 & ->).
    apply IH in H. destruct H as (m2 & ->).
    exists (m1 ++ m2). now rewrite app_assoc.
Qed.

Lemma create_pairs_loop_add (n m : nat) :
  forall (pairs : list pair_record) (g : rng),
    create_pairs_loop label_dict labels (n + m) pairs g
    = match create_pairs_loop label_dict labels n pairs g with
      | Ok (pairs1, g1) => create_pairs_loop label_dict labels m pairs1 g1
      | Raise e => Raise e
      end.
Proof.
  induction n as [|n IH]; intros pairs g; simpl; [reflexivity|].
  unfold bind.
  destruct (iteration label_dict labels pairs g) as [[p1 g1]|e];
    [apply IH|reflexivity].
Qed.

End SamplerPrefix.

(** X6.  With the same random stream, asking for more pairs only adds
    records at the end: what [create_pairs] returns for [N] is a prefix of
    what it returns for [N + M]; and a request that raises for [N] raises
    the same error for [N + M]. *)
Theorem create_pairs_prefix (image : Type) (ds : dataset image)
  (label_dict : Dict.t) (N M : nat) (g : rng) :
  (forall pairs pairs',
     create_pairs ds label_dict N g = Ok pairs ->
     create_pairs ds label_dict (N + M) g = Ok pairs' ->
     exists more, pairs' = pairs ++ more) /\
  (forall e,
     create_pairs ds label_dict N g = Raise e ->
     create_pairs ds label_dict (N + M) g = Raise e).
Proof.
  unfold create_pairs. rewrite create_pairs_loop_add.
  destruct (create_pairs_loop label_dict (Dict.keys label_dict) N [] g)
    as [[p1 g1]|e1] eqn:E1.
  - split; [|discriminate].
    intros pairs pairs' [= <-].
    destruct (create_pairs_loop label_dict (Dict.keys label_dict) M p1 g1)
      as [[p2 g2]|e2] eqn:E2; [|discriminate].
    intros [= <-]. eapply create_pairs_loop_extends, E2.
  - split; [discriminate|]. now intros e [= <-].
Qed.

(** ** What the training loop reads through the paired view *)

(** X7.  Over the records that [create_pairs] returns for the index of a
    dataset, every item of the paired view can be read, and its label tells
    the truth about the two images it carries: it is 0 for two different
    positions of the dataset that hold the same class label, and 1 for two
    positions that hold different class labels. *)
Theorem paired_view_ground_truth (image : Type) (ds : dataset image)
  (label_dict : Dict.t) (n : nat) (g : rng) (pairs : list pair_record)
  (i : nat) :
  organize_by_label ds = Ok label_dict ->
  create_pairs ds label_dict n g = Ok pairs ->
  i < length pairs ->
  exists idx1 idx2 img1 img2 L1 L2 f,
    ContrastiveMNISTDataset.__getitem__
      {| ContrastiveMNISTDataset.dataset := ds;
         ContrastiveMNISTDataset.pairs := pairs |} i
    = Ok ((img1, img2), f) /\
    getitem ds idx1 = Ok (img1, L1) /\
    getitem ds idx2 = Ok (img2, L2) /\
    ((f = 0%R /\ L1 = L2 /\ idx1 <> idx2) \/ (f = 1%R /\ L1 <> L2)).
Proof.
  intros Horg Hcp Hi.
  destruct (organize_by_label_indexes image ds) as (d & Hd & Hix).
  rewrite Horg in Hd. injection Hd as <-.
  unfold create_pairs in Hcp.
  destruct (create_pairs_loop _ _ _ _ _) as [[pairs' g']|e] eqn:E;
    [|discriminate].
  injection Hcp as ->.
  pose proof (create_pairs_loop_consistent _ _ _ _ Hix (seq_NoDup _ _)
                _ _ _ _ _ E (Forall_nil _)) as Hall.
  destruct (nth_error pairs i) as [[[idx1 idx2] sim]|] eqn:Hnth;
    [|apply nth_error_None in Hnth; lia].
  rewrite Forall_forall in Hall.
  specialize (Hall _ (nth_error_In _ _ Hnth)). simpl in Hall.
  unfold ContrastiveMNISTDataset.__getitem__, getitem. simpl. rewrite Hnth.
  unfold label_at in Hall.
  destruct (nth_error ds idx1) as [[a la]|] eqn:N1;
    [|destruct Hall as [(_ & _ & _ & L & H1 & _)|(_ & _ & L1 & L2 & H1 & _)];
      discriminate].
  destruct (nth_error ds idx2) as [[b lb]|] eqn:N2;
    [|destruct Hall as [(_ & _ & _ & L & _ & H2)
                       |(_ & _ & L1 & L2 & _ & H2 & _)];
      discriminate].
  simpl in Hall.
  destruct Hall as [(-> & Hne & _ & L & H1 & H2)
                   |(-> & _ & L1 & L2 & H1 & H2 & Hne)].
  - exists idx1, idx2, a, b, la, lb, 0%R. rewrite N1, N2.
    split; [reflexivity|]. split; [reflexivity|]. split; [reflexivity|].
    left. split; [reflexivity|]. split; [congruence|assumption].
  - exists idx1, idx2, a, b, la, lb, 1%R. rewrite N1, N2.
    split; [reflexivity|]. split; [reflexivity|]. split; [reflexivity|].
    right. split; [reflexivity|]. congruence.
Qed.

Lemma paired_view_ground_truth_witness :
  exists idx1 idx2 img1 img2 L1 L2 f,
    ContrastiveMNISTDataset.__getitem__
      {| ContrastiveMNISTDataset.dataset := toy_dataset;
         ContrastiveMNISTDataset.pairs :=
           [(1, 0, 0%Z); (3, 0, 1%Z); (2, 3, 0%Z); (0, 3, 1%Z)] |} 1
    = Ok ((img1, img2), f) /\
    getitem toy_dataset idx1 = Ok (img1, L1) /\
    getitem toy_dataset idx2 = Ok (img2, L2) /\
    ((f = 0%R /\ L1 = L2 /\ idx1 <> idx2) \/ (f = 1%R /\ L1 <> L2)).
Proof.
  apply (paired_view_ground_truth unit toy_dataset toy_label_dict 2
           counting_rng
           [(1, 0, 0%Z); (3, 0, 1%Z); (2, 3, 0%Z); (0, 3, 1%Z)] 1).
  - reflexivity.
  - reflexivity.
  - simpl. lia.
Defined.

(** * Further properties of the training loop *)

Section TrainingAge.

Variable world : Type.
Variable snapshot : Type.
Variable train_phase : world -> world.
Variable validation_phase : world -> Float.t.
Variable scheduler_step : Float.t -> world -> world.
Variable state_dict : world -> snapshot.

Local Abbreviation the_epochs :=
  (epochs train_phase validation_phase scheduler_step state_dict).
Local Abbreviation the_state :=
  (after_epochs train_phase validation_phase scheduler_step state_dict).
Local Abbreviation the_model :=
  (trained_model train_phase validation_phase scheduler_step state_dict).
Local Abbreviation the_loss :=
  (val_loss train_phase validation_phase scheduler_step state_dict).
Local Abbreviation the_loop :=
  (training_loop train_phase validation_phase scheduler_step state_dict).
Local Abbreviation the_facts :=
  (since_improvement world snapshot train_phase validation_phase
     scheduler_step state_dict).
Local Abbreviation the_run :=
  (loop_runs world snapshot train_phase validation_phase scheduler_step
     state_dict).

(** The counter never exceeds the number of epochs, and reaches it only
    while nothing has been saved. *)
Lemma counter_bound (w : world) (N : nat) :
  early_stop_counter (the_state N w) <= N /\
  (1 <= N -> checkpoint (the_state N w) <> None ->
   early_stop_counter (the_state N w) < N).
Proof.
  destruct (the_facts w N)
    as [(_ & Hc & _ & Hage)|(k & Hk & _ & _ & Hage & _)];
    rewrite Hage; split; try lia.
  intros _ H. now destruct H.
Qed.

(** The loop never stops before epoch 10. *)
Lemma loop_at_least_10 (w : world) : 10 <= snd (the_loop w).
Proof.
  unfold training_loop.
  destruct (the_run num_epochs w) as (Hle & Hpos & _ & _ & Hstop).
  set (N := snd (the_epochs num_epochs (@initial world snapshot w))) in *.
  unfold num_epochs, patience in *.
  destruct (Nat.lt_ge_cases N 50) as [Hlt|Hge]; [|lia].
  specialize (Hstop Hlt).
  destruct (counter_bound w N) as [Hb _]. lia.
Qed.

(** X9.  When the loop is over, the early-stop counter is the age of the
    checkpoint: the number of epochs run after the epoch whose model was
    saved, that epoch being the first with the least validation loss (a NaN
    never counting).  When no epoch had a loss below infinity there is no
    checkpoint, and the counter is the number of epochs run. *)
Theorem counter_is_checkpoint_age (w : world) (n : nat) :
  1 <= n ->
  let loss k :=
    val_loss train_phase validation_phase scheduler_step state_dict k w in
  let saved k :=
    state_dict
      (trained_model train_phase validation_phase scheduler_step state_dict
         k w) in
  let run :=
    epochs train_phase validation_phase scheduler_step state_dict n
      (@initial world snapshot w) in
  ((forall j, j < snd run -> ~ Float.lt (loss j) Float.PInf) /\
   checkpoint (fst run) = None /\
   early_stop_counter (fst run) = snd run)
  \/
  (exists k,
     k < snd run /\
     checkpoint (fst run) = Some (saved k) /\
     early_stop_counter (fst run) = snd run - 1 - k /\
     Float.lt (loss k) Float.PInf /\
     (forall j, j < snd run -> ~ Float.lt (loss j) (loss k)) /\
     (forall j, j < k -> loss j = Float.NaN \/ Float.lt (loss k) (loss j))).
Proof.
  intros Hn loss saved run. subst loss saved.
  destruct (the_run n w) as (_ & _ & Hst & _ & _).
  fold run in Hst. rewrite Hst.
  destruct (the_facts w (snd run))
    as [(Hnone & Hc & _ & Hage)
       |(k & Hk & Hc & _ & Hage & Hfin & Hmin & Hfirst)].
  - left. auto.
  - right. exists k. auto 7.
Qed.

(** X10.  The loop runs at least 10 and at most 50 epochs.  It stops after
    exactly 10 when, and only when, none of the first ten validation losses
    is below infinity; no checkpoint has been saved then.  In every other
    case at least 11 epochs run. *)
Theorem training_loop_shortest_run (w : world) :
  let loss k :=
    val_loss train_phase validation_phase scheduler_step state_dict k w in
  let run :=
    training_loop train_phase validation_phase scheduler_step state_dict w in
  10 <= snd run <= 50 /\
  (snd run = 10 <-> forall j, j < 10 -> ~ Float.lt (loss j) Float.PInf) /\
  (snd run = 10 -> checkpoint (fst run) = None) /\
  (checkpoint (fst run) <> None -> 11 <= snd run).
Proof.
  intros loss run. subst loss run.
  pose proof (loop_at_least_10 w) as H10.
  unfold training_loop in *.
  destruct (the_run num_epochs w) as (Hle & _ & Hst & Hno & Hstop).
  set (N := snd (the_epochs num_epochs (@initial world snapshot w))) in *.
  unfold num_epochs, patience in *.
  assert (Hten : N = 10 ->
            (forall j, j < 10 -> ~ Float.lt (the_loss j w) Float.PInf) /\
            checkpoint (the_state 10 w) = None).
  { intros HN. specialize (Hstop ltac:(lia)). rewrite HN in Hstop.
    destruct (the_facts w 10)
      as [(Hnone & Hc & _ & _)|(k & Hk & _ & _ & Hage & _)]; [auto|lia]. }
  split; [lia|]. split; [split|split].
  - intros HN. now apply Hten.
  - intros Hnone.
    destruct (Nat.eq_dec N 10) as [|Hne]; [assumption|].
    specialize (Hno 10 ltac:(lia)).
    destruct (the_facts w 10)
      as [(_ & _ & _ & Hage)|(k & Hk & _ & _ & _ & Hfin & _)]; [lia|].
    now destruct (Hnone k Hk).
  - intros HN. rewrite Hst, HN. now apply Hten.
  - intros Hc. destruct (Nat.eq_dec N 10) as [HN|Hne]; [|lia].
    destruct Hc. rewrite Hst, HN. now apply Hten.
Qed.

(** X11.  When the first validation loss is below infinity and none of the
    epochs 2 to 11 brings a loss below it, the loop stops at the end of
    epoch 11 with the counter at 10, and the checkpoint is the model of the
    first epoch. *)
Theorem training_loop_no_improvement (w : world) :
  let loss k :=
    val_loss train_phase validation_phase scheduler_step state_dict k w in
  let saved k :=
    state_dict
      (trained_model train_phase validation_phase scheduler_step state_dict
         k w) in
  let run :=
    training_loop train_phase validation_phase scheduler_step state_dict w in
  Float.lt (loss 0) Float.PInf ->
  (forall j, 1 <= j <= 10 -> ~ Float.lt (loss j) (loss 0)) ->
  snd run = 11 /\
  checkpoint (fst run) = Some (saved 0) /\
  best_val_loss (fst run) = loss 0 /\
  early_stop_counter (fst run) = 10.
Proof.
  intros loss saved run Hfin Hflat. subst loss saved run.
  pose proof (loop_at_least_10 w) as H10.
  unfold training_loop in *.
  destruct (the_run num_epochs w) as (Hle & _ & Hst & Hno & Hstop).
  set (N := snd (the_epochs num_epochs (@initial world snapshot w))) in *.
  unfold num_epochs, patience in *.
  assert (Hfirst : forall M, 1 <= M <= 11 ->
            checkpoint (the_state M w) = Some (state_dict (the_model 0 w)) /\
            best_val_loss (the_state M w) = the_loss 0 w /\
            early_stop_counter (the_state M w) = M - 1).
  { intros M HM.
    destruct (the_facts w M)
      as [(Hnone & _)|(k & Hk & Hc & Hb & Hage & _ & _ & Hlow)].
    - now destruct (Hnone 0 ltac:(lia)).
    - assert (Hk0 : k = 0).
      { destruct k as [|k]; [reflexivity|].
        destruct (Hlow 0 ltac:(lia)) as [E|E].
        - rewrite E in Hfin. now destruct FloatFacts.nan_not_lt_pinf.
        - now destruct (Hflat (S k) ltac:(lia)). }
      subst k. rewrite Hage. repeat split; try assumption. lia. }
  assert (HN : N = 11).
  { destruct (Nat.lt_trichotomy N 11) as [Hlt|[Heq|Hgt]]; [|exact Heq|].
    - specialize (Hstop ltac:(lia)).
      destruct (Hfirst N ltac:(lia)) as (_ & _ & Hage). lia.
    - specialize (Hno 11 Hgt).
      destruct (Hfirst 11 ltac:(lia)) as (_ & _ & Hage). lia. }
  rewrite Hst, HN. split; [reflexivity|].
  exact (Hfirst 11 ltac:(lia)).
Qed.

(** X12.  When the validation loss falls from every epoch to the next, the
    loop runs all 50 epochs, the counter ends at 0, and the checkpoint is
    the model of the last epoch. *)
Theorem training_loop_always_improving (w : world) :
  let loss k :=
    val_loss train_phase validation_phase scheduler_step state_dict k w in
  let saved k :=
    state_dict
      (trained_model train_phase validation_phase scheduler_step state_dict
         k w) in
  let run :=
    training_loop train_phase validation_phase scheduler_step state_dict w in
  (forall j, j < 49 -> Float.lt (loss (S j)) (loss j)) ->
  snd run = 50 /\
  checkpoint (fst run) = Some (saved 49) /\
  best_val_loss (fst run) = loss 49 /\
  early_stop_counter (fst run) = 0.
Proof.
  intros loss saved run Hfall. subst loss saved run.
  assert (Hchain : forall d i, i + S d <= 49 ->
                     Float.lt (the_loss (i + S d) w) (the_loss i w)).
  { induction d as [|d IH]; intros i Hi.
    - rewrite Nat.add_1_r. apply Hfall. lia.
    - replace (i + S (S d)) with (S (i + S d)) by lia.
      specialize (IH i ltac:(lia)). specialize (Hfall (i + S d) ltac:(lia)).
      exact (FloatFacts.lt_trans _ _ _ Hfall IH). }
  assert (Hlast : forall N, 2 <= N <= 50 ->
            checkpoint (the_state N w)
            = Some (state_dict (the_model (N - 1) w)) /\
            best_val_loss (the_state N w) = the_loss (N - 1) w /\
            early_stop_counter (the_state N w) = 0).
  { intros N HN.
    assert (Hnew : Float.lt (the_loss (N - 1) w) (the_loss (N - 2) w)).
    { replace (N - 1) with (S (N - 2)) by lia. apply Hfall. lia. }
    destruct (the_facts w N)
      as [(Hnone & _)|(k & Hk & Hc & Hb & Hage & _ & Hmin & _)].
    - destruct (Hnone (N - 1) ltac:(lia)).
      exact (FloatFacts.lt_pinf _ _ Hnew).
    - assert (Hk' : k = N - 1).
      { destruct (Nat.eq_dec k (N - 1)) as [|Hne]; [assumption|].
        destruct (Hmin (N - 1) ltac:(lia)).
        specialize (Hchain (N - 1 - k - 1) k ltac:(lia)).
        replace (k + S (N - 1 - k - 1)) with (N - 1) in Hchain by lia.
        exact Hchain. }
      subst k. repeat split; try assumption. lia. }
  unfold training_loop in *.
  destruct (the_run num_epochs w) as (Hle & Hpos & Hst & _ & Hstop).
  set (N := snd (the_epochs num_epochs (@initial world snapshot w))) in *.
  unfold num_epochs, patience in *.
  assert (HN : N = 50).
  { destruct (Nat.eq_dec N 50) as [|Hne]; [assumption|].
    specialize (Hstop ltac:(lia)).
    destruct (Nat.eq_dec N 1) as [H1|H1].
    - destruct (counter_bound w N) as [Hb _]. lia.
    - specialize (Hpos ltac:(lia)).
      destruct (Hlast N) as (_ & _ & Hz); [lia|]. lia. }
  rewrite Hst, HN. split; [reflexivity|].
  exact (Hlast 50 ltac:(lia)).
Qed.

End TrainingAge.

Lemma counter_is_checkpoint_age_witness :
  let phase (w : nat) := Float.Fin (INR w) in
  let loss k :=
    val_loss S phase (fun _ (w : nat) => w) (fun w : nat => w) k 0 in
  let saved k :=
    trained_model S phase (fun _ (w : nat) => w) (fun w : nat => w) k 0 in
  let run :=
    epochs S phase (fun _ (w : nat) => w) (fun w : nat => w) 3
      (@initial nat nat 0) in
  ((forall j, j < snd run -> ~ Float.lt (loss j) Float.PInf) /\
   checkpoint (fst run) = None /\
   early_stop_counter (fst run) = snd run)
  \/
  (exists k,
     k < snd run /\
     checkpoint (fst run) = Some (saved k) /\
     early_stop_counter (fst run) = snd run - 1 - k /\
     Float.lt (loss k) Float.PInf /\
     (forall j, j < snd run -> ~ Float.lt (loss j) (loss k)) /\
     (forall j, j < k -> loss j = Float.NaN \/ Float.lt (loss k) (loss j))).
Proof.
  apply (counter_is_checkpoint_age nat nat S (fun w => Float.Fin (INR w))
           (fun _ w => w) (fun w => w) 0 3).
  lia.
Defined.

Lemma training_loop_no_improvement_witness :
  snd flat_training_loop = 11 /\
  checkpoint (fst flat_training_loop)
  = Some (trained_model (fun w : unit => w) (fun _ => Float.Fin 0)
            (fun _ w => w) (fun w : unit => w) 0 tt) /\
  best_val_loss (fst flat_training_loop)
  = val_loss (fun w : unit => w) (fun _ => Float.Fin 0) (fun _ w => w)
      (fun w : unit => w) 0 tt /\
  early_stop_counter (fst flat_training_loop) = 10.
Proof.
  apply (training_loop_no_improvement unit unit (fun w => w)
           (fun _ => Float.Fin 0) (fun _ w => w) (fun w => w) tt).
  - reflexivity.
  - intros j _. unfold val_loss. apply FloatFacts.lt_irrefl.
Defined.

(** The model of an epoch does not depend on the checkpoint decision. *)
Lemma model_after_epoch (world snapshot : Type)
  (train_phase : world -> world) (validation_phase : world -> Float.t)
  (scheduler_step : Float.t -> world -> world)
  (state_dict : world -> snapshot)
  (st : TrainingState world snapshot) :
  model (epoch train_phase validation_phase scheduler_step state_dict st)
  = scheduler_step (validation_phase (train_phase (model st)))
      (train_phase (model st)).
Proof.
  unfold epoch, checkpoint_decision. simpl.
  now destruct (below _ _).
Qed.

Lemma falling_model (k : nat) :
  model (after_epochs S falling_loss (fun _ (w : nat) => w)
           (fun w : nat => w) k 0) = k.
Proof.
  induction k as [|k IH]; [reflexivity|].
  change (after_epochs S falling_loss (fun _ (w : nat) => w)
            (fun w : nat => w) (S k) 0)
    with (epoch S falling_loss (fun _ (w : nat) => w) (fun w : nat => w)
            (after_epochs S falling_loss (fun _ (w : nat) => w)
               (fun w : nat => w) k 0)).
  rewrite model_after_epoch. now rewrite IH.
Qed.

Lemma falling_val_loss (k : nat) :
  val_loss S falling_loss (fun _ (w : nat) => w) (fun w : nat => w) k 0
  = Float.Fin (- INR (S k)).
Proof.
  unfold val_loss, trained_model. now rewrite falling_model.
Qed.

Lemma training_loop_always_improving_witness :
  snd (training_loop S falling_loss (fun _ (w : nat) => w)
         (fun w : nat => w) 0) = 50 /\
  checkpoint (fst (training_loop S falling_loss (fun _ (w : nat) => w)
                     (fun w : nat => w) 0))
  = Some (trained_model S falling_loss (fun _ (w : nat) => w)
            (fun w : nat => w) 49 0) /\
  best_val_loss (fst (training_loop S falling_loss (fun _ (w : nat) => w)
                        (fun w : nat => w) 0))
  = val_loss S falling_loss (fun _ (w : nat) => w) (fun w : nat => w) 49 0 /\
  early_stop_counter (fst (training_loop S falling_loss
                             (fun _ (w : nat) => w) (fun w : nat => w) 0))
  = 0.
Proof.
  apply (training_loop_always_improving nat nat S falling_loss
           (fun _ w => w) (fun w => w) 0).
  intros j _. rewrite !falling_val_loss, !S_INR.
  unfold Float.lt, Float.ltb. destruct (Rlt_dec _ _); [reflexivity|lra].
Defined.

(** * The metrics of an epoch *)

Module MetricsFacts.

Lemma filter_all {A : Type} (f : A -> bool) (l : list A) :
  length (filter f l) = length l <-> Forall (fun x => f x = true) l.
Proof.
  induction l as [|x l IH]; simpl.
  - split; [constructor|reflexivity].
  - pose proof (filter_length_le f l) as Hle.
    destruct (f x) eqn:E; simpl.
    + split.
      * intros H. constructor; [assumption|]. apply IH. lia.
      * intros H. inversion H; subst. f_equal. now apply IH.
    + split; [lia|]. intros H. inversion H; subst. congruence.
Qed.

(** The totals after the batch loop, in closed form. *)
Lemma fold_totals (batches : list Metrics.batch_outcome) :
  forall t,
    let t' := fold_left Metrics.accumulate batches t in
    Metrics.total_loss t'
    = (Metrics.total_loss t
       + Tensor.sum (map Metrics.loss_item batches))%R /\
    Metrics.correct_predictions t'
    = Metrics.correct_predictions t
      + length (filter Metrics.correct
                  (concat (map Metrics.scored batches))) /\
    Metrics.total_samples t'
    = Metrics.total_samples t
      + length (concat (map Metrics.scored batches)).
Proof.
  induction batches as [|b batches IH]; intros t; simpl.
  - repeat split; [lra|lia|lia].
  - destruct (IH (Metrics.accumulate t b)) as (Hl & Hc & Hs).
    rewrite Hl, Hc, Hs. simpl.
    rewrite filter_app, !length_app. repeat split; [lra|lia|lia].
Qed.

Lemma run_batches_totals (batches : list Metrics.batch_outcome) :
  let t := Metrics.run_batches batches in
  Metrics.total_loss t = Tensor.sum (map Metrics.loss_item batches) /\
  Metrics.correct_predictions t
  = length (filter Metrics.correct (concat (map Metrics.scored batches))) /\
  Metrics.total_samples t = length (concat (map Metrics.scored batches)).
Proof.
  destruct (fold_totals batches Metrics.zero) as (Hl & Hc & Hs).
  unfold Metrics.run_batches. simpl in *.
  rewrite Hl, Hc, Hs. repeat split; lra.
Qed.

Lemma eqb_fin (r : R) (b : Float.t) :
  Float.eqb (Float.Fin r) b = true <-> b = Float.Fin r.
Proof.
  destruct b as [x| | |]; simpl; try (split; discriminate).
  destruct (Req_dec_T r x) as [->|Hne]; split; try reflexivity;
    try discriminate.
  intros [= ->]. now destruct Hne.
Qed.

Lemma correct_rule (score label : Float.t) :
  Metrics.correct (score, label) = true <->
  (label = Float.Fin 1 /\ Float.lt (Float.Fin (1 / 2)) score) \/
  (label = Float.Fin 0 /\ ~ Float.lt (Float.Fin (1 / 2)) score).
Proof.
  unfold Metrics.correct, Metrics.prediction, Float.lt.
  destruct (Float.ltb (Float.Fin (1 / 2)) score); rewrite eqb_fin; split.
  - intros ->. left. auto.
  - intros [[-> _]|[_ H]]; [reflexivity|now destruct H].
  - intros ->. right. split; [reflexivity|discriminate].
  - intros [[_ H]|[-> _]]; [discriminate|reflexivity].
Qed.

(** The scores that are not above one half. *)
Lemma not_above_half (score : Float.t) :
  ~ Float.lt (Float.Fin (1 / 2)) score <->
  score = Float.NaN \/ score = Float.NInf \/
  exists r, score = Float.Fin r /\ (r <= 1 / 2)%R.
Proof.
  unfold Float.lt. destruct score as [r| | |]; simpl.
  - destruct (Rlt_dec (1 / 2) r) as [Hgt|Hle]; split.
    + intros H. now destruct H.
    + intros [H|[H|(x & [= <-] & Hx)]]; try discriminate. lra.
    + intros _. right. right. exists r. split; [reflexivity|lra].
    + discriminate.
  - split; [intros H; now destruct H|].
    intros [H|[H|(x & H & _)]]; discriminate.
  - split; [auto|discriminate].
  - split; [auto|discriminate].
Qed.

End MetricsFacts.

(** X13.  The accuracy count of an epoch counts exactly the samples whose
    label is 1 with a distance above 0.5, or whose label is 0 with a
    distance that is not above 0.5: at most 0.5, or a NaN, which the
    comparison [> 0.5] turns into the prediction 0.  A sample with any other
    label is never counted as correct, and the count never exceeds the
    number of samples. *)
Theorem accuracy_counting_rule (batches : list Metrics.batch_outcome) :
  let t := Metrics.run_batches batches in
  let rows := concat (map Metrics.scored batches) in
  Metrics.total_samples t = length rows /\
  Metrics.correct_predictions t = length (filter Metrics.correct rows) /\
  Metrics.correct_predictions t <= Metrics.total_samples t /\
  (forall score label,
     Metrics.correct (score, label) = true <->
     (label = Float.Fin 1 /\ Float.lt (Float.Fin (1 / 2)) score) \/
     (label = Float.Fin 0 /\
      (score = Float.NaN \/ score = Float.NInf \/
       exists r, score = Float.Fin r /\ (r <= 1 / 2)%R))) /\
  (forall score label,
     label <> Float.Fin 0 -> label <> Float.Fin 1 ->
     Metrics.correct (score, label) = false) /\
  Metrics.correct (Float.NaN, Float.Fin 0) = true /\
  Metrics.correct (Float.NaN, Float.Fin 1) = false.
Proof.
  intros t rows.
  destruct (MetricsFacts.run_batches_totals batches) as (_ & Hc & Hs).
  fold t in Hc, Hs. fold rows in Hc, Hs.
  split; [exact Hs|]. split; [exact Hc|]. split; [|split; [|split]].
  - rewrite Hc, Hs. apply filter_length_le.
  - intros score label. rewrite <- MetricsFacts.not_above_half.
    apply MetricsFacts.correct_rule.
  - intros score label H0 H1.
    destruct (Metrics.correct (score, label)) eqn:E; [|reflexivity].
    apply MetricsFacts.correct_rule in E. destruct E as [[-> _]|[-> _]];
      congruence.
  - split.
    + apply MetricsFacts.correct_rule. right. split; [reflexivity|].
      discriminate.
    + destruct (Metrics.correct (Float.NaN, Float.Fin 1)) eqn:E;
        [|reflexivity].
      apply MetricsFacts.correct_rule in E.
      destruct E as [[_ H]|[[= H] _]]; [discriminate|lra].
Qed.

(** X14.  The metrics of an epoch fail with a division by zero exactly when
    the loader yields no batch or no sample at all.  Otherwise the average
    loss is the sum of the batch losses over the number of batches (so it
    is non-negative when every batch loss is), and the accuracy lies between
    0 and 1, with 1 reached exactly when every sample is counted correct. *)
Theorem epoch_metrics_range (batches : list Metrics.batch_outcome) :
  let rows := concat (map Metrics.scored batches) in
  (Metrics.epoch_metrics batches = None <-> batches = [] \/ rows = []) /\
  (forall avg_loss accuracy,
     Metrics.epoch_metrics batches = Some (avg_loss, accuracy) ->
     avg_loss
     = (Tensor.sum (map Metrics.loss_item batches)
        / INR (length batches))%R /\
     ((forall b, In b batches -> (0 <= Metrics.loss_item b)%R) ->
      (0 <= avg_loss)%R) /\
     (0 <= accuracy <= 1)%R /\
     (accuracy = 1%R <->
      Forall (fun row => Metrics.correct row = true) rows)).
Proof.
  intros rows.
  destruct (MetricsFacts.run_batches_totals batches) as (Hl & Hc & Hs).
  fold rows in Hc, Hs.
  unfold Metrics.epoch_metrics, Metrics.true_div.
  rewrite Hl, Hc, Hs.
  destruct (Nat.eqb_spec (length batches) 0) as [Hb|Hb].
  - split.
    + split; [|reflexivity]. intros _. left. now apply length_zero_iff_nil.
    + discriminate.
  - destruct (Nat.eqb_spec (length rows) 0) as [Hr|Hr].
    + split.
      * split; [|reflexivity]. intros _. right.
        now apply length_zero_iff_nil.
      * discriminate.
    + split.
      * split; [discriminate|].
        intros [->|Hrows]; [now elim Hb|]. rewrite Hrows in Hr. now elim Hr.
      * intros avg_loss accuracy [= <- <-].
        assert (Hlen : (0 < INR (length rows))%R)
          by (apply lt_0_INR; lia).
        assert (Hbat : (0 < INR (length batches))%R)
          by (apply lt_0_INR; lia).
        pose proof (filter_length_le Metrics.correct rows) as Hle.
        apply le_INR in Hle.
        pose proof (pos_INR (length (filter Metrics.correct rows))) as Hpos.
        split; [reflexivity|]. split; [|split].
        -- intros Hnonneg.
           apply Rmult_le_pos;
             [|apply Rlt_le, Rinv_0_lt_compat, Hbat].
           apply TensorFacts.sum_nonneg.
           apply Forall_map, Forall_forall. exact Hnonneg.
        -- split.
           ++ apply Rmult_le_pos;
                [exact Hpos|apply Rlt_le, Rinv_0_lt_compat, Hlen].
           ++ apply (Rmult_le_reg_r (INR (length rows))); [exact Hlen|].
              unfold Rdiv. rewrite Rmult_assoc, Rinv_l by lra. lra.
        -- rewrite <- MetricsFacts.filter_all. split.
           ++ intros H1. apply INR_eq.
              apply (Rmult_eq_compat_r (INR (length rows))) in H1.
              unfold Rdiv in H1. rewrite Rmult_assoc, Rinv_l in H1 by lra.
              lra.
           ++ intros ->. unfold Rdiv. apply Rinv_r. lra.
Qed.

(** * The margin of the contrastive objective *)

Lemma sum_map_le {A : Type} (f h : A -> R) (l : list A) :
  (forall x, In x l -> (f x <= h x)%R) ->
  (Tensor.sum (map f l) <= Tensor.sum (map h l))%R.
Proof.
  induction l as [|x l IH]; intros Hle; simpl; [lra|].
  specialize (Hle x (or_introl eq_refl)) as Hx.
  assert (Hrest : (Tensor.sum (map f l) <= Tensor.sum (map h l))%R).
  { apply IH. intros y Hy. apply Hle. now right. }
  lra.
Qed.

Lemma pair_loss_margin (distance : embedding -> embedding -> R)
  (m m' : R) (p : batch_row) :
  (0 <= row_label p)%R -> (m <= m')%R ->
  (pair_loss distance m p <= pair_loss distance m' p)%R.
Proof.
  destruct p as [[vA vB] label]. unfold row_label, pair_loss. simpl.
  intros Hlab Hm.
  set (d := distance vA vB).
  set (c := Rmax 0 (m - d)). set (c' := Rmax 0 (m' - d)).
  assert (Hc : (0 <= c)%R) by apply Rmax_l.
  assert (Hcc : (c <= c')%R) by (apply Rle_max_compat_l; lra).
  assert (Hsq : (c * c <= c' * c')%R) by (apply Rmult_le_compat; lra).
  assert (Hmul : (label * (c * c) <= label * (c' * c'))%R)
    by (apply Rmult_le_compat_l; lra).
  lra.
Qed.

(** X15.  On a non-empty batch whose labels are not negative, a larger
    margin never gives a smaller loss: [ContrastiveLoss(margin=m)] is at
    most [ContrastiveLoss(margin=m')] on the same tensors when [m <= m']. *)
Theorem contrastive_loss_margin_monotone
  (distance : embedding -> embedding -> R) (m m' : R)
  (batch : list batch_row) :
  batch <> [] ->
  (forall p, In p batch -> (0 <= row_label p)%R) ->
  (m <= m')%R ->
  exists loss loss',
    ContrastiveLoss.forward distance {| ContrastiveLoss.margin := m |}
      (map row_output1 batch) (map row_output2 batch) (map row_label batch)
    = Ok (Tensor.Finite loss) /\
    ContrastiveLoss.forward distance {| ContrastiveLoss.margin := m' |}
      (map row_output1 batch) (map row_output2 batch) (map row_label batch)
    = Ok (Tensor.Finite loss') /\
    (loss <= loss')%R.
Proof.
  intros Hne Hlab Hm.
  pose proof (loss_of_batch_eq distance {| ContrastiveLoss.margin := m |}
                batch) as H1.
  pose proof (loss_of_batch_eq distance {| ContrastiveLoss.margin := m' |}
                batch) as H2.
  unfold loss_of_batch, batch_mean_loss in H1, H2. simpl in H1, H2.
  rewrite TensorFacts.mean_finite in H1, H2
    by (destruct batch; [congruence|discriminate]).
  eexists. eexists. split; [exact H1|]. split; [exact H2|].
  rewrite !length_map.
  apply Rmult_le_compat_r.
  - apply Rlt_le, Rinv_0_lt_compat, lt_0_INR.
    destruct batch; [congruence|simpl; lia].
  - apply sum_map_le. intros p Hp.
    apply pair_loss_margin; [now apply Hlab|exact Hm].
Qed.

Lemma contrastive_loss_margin_monotone_witness :
  exists loss loss',
    ContrastiveLoss.forward torch_distance {| ContrastiveLoss.margin := 1 |}
      (map row_output1 [([3%R], [0%R], 1%R)])
      (map row_output2 [([3%R], [0%R], 1%R)])
      (map row_label [([3%R], [0%R], 1%R)])
    = Ok (Tensor.Finite loss) /\
    ContrastiveLoss.forward torch_distance {| ContrastiveLoss.margin := 5 |}
      (map row_output1 [([3%R], [0%R], 1%R)])
      (map row_output2 [([3%R], [0%R], 1%R)])
      (map row_label [([3%R], [0%R], 1%R)])
    = Ok (Tensor.Finite loss') /\
    (loss <= loss')%R.
Proof.
  apply (contrastive_loss_margin_monotone torch_distance 1 5
           [([3%R], [0%R], 1%R)]).
  - discriminate.
  - intros p [<-|[]]. unfold row_label. simpl. lra.
  - lra.
Defined.
